(** * Medication availability and price checker: the search pipeline of server.js

    A shallow embedding of [src/server.js]: the deterministic price and stock
    synthesizer ([seedNum], [simulatePrice], [simulateStock]), the three
    upstream lookups with their process-wide caches ([rxnormLookup],
    [geocodeText], [findPharmacies]) and the [/api/search] handler with its
    filters and its sort.

    - JavaScript numbers are IEEE 754 binary64 values; they are Rocq's
      primitive floats, whose operations are the binary64 operations,
      specified by [SpecFloat] through [Prim2SF].
    - JavaScript strings are [string]s, one character per code unit (code
      units below 256).
    - The providers are a record of functions, [upstream]: what each HTTP
      call answers, or the error it throws.
    - The two caches are finite maps, threaded through the lookups and the
      handler; a request is handled from its start to its answer.
    - A thrown error is a value of [outcome]; the handler's [catch] is
      [failure]. *)

From Stdlib Require Import ZArith Lia List String Ascii Bool Floats.
From Stdlib Require Import DecimalString Sorting.Sorted Permutation.
From stdpp Require Import gmap strings.
Import ListNotations.

Open Scope string_scope.
Open Scope Z_scope.

(** ** The JavaScript built-ins the server uses *)

Module JS.

(** *** Strings *)

Definition charCode (c : ascii) : Z := Z.of_N (N_of_ascii c).

(** White space and line terminators that [trim] and the numeric grammar
    skip, among the code units below 256: TAB, LF, VT, FF, CR, SP, NBSP. *)
Definition isWhiteSpace (c : ascii) : bool :=
  let n := charCode c in
  ((9 <=? n) && (n <=? 13)) || (n =? 32) || (n =? 160).

Fixpoint trimStart (l : list ascii) : list ascii :=
  match l with
  | c :: l' => if isWhiteSpace c then trimStart l' else l
  | [] => []
  end.

Definition trimEnd (l : list ascii) : list ascii :=
  rev (trimStart (rev l)).

Definition trim_chars (l : list ascii) : list ascii :=
  trimEnd (trimStart l).

(** [str.trim()] *)
Definition trim (s : string) : string :=
  string_of_list_ascii (trim_chars (list_ascii_of_string s)).

(** The lower-case form of a code unit below 256: A-Z, and the Latin-1
    capitals U+00C0 to U+00DE but for the multiplication sign U+00D7. *)
Definition lowerChar (c : ascii) : ascii :=
  let n := charCode c in
  if ((65 <=? n) && (n <=? 90))
     || ((192 <=? n) && (n <=? 222) && negb (n =? 215))
  then ascii_of_N (Z.to_N (n + 32))
  else c.

(** [str.toLowerCase()] *)
Definition toLowerCase (s : string) : string :=
  string_of_list_ascii (map lowerChar (list_ascii_of_string s)).

(** Truthiness of a string: only the empty string is falsy. *)
Definition truthy (s : string) : bool :=
  match s with EmptyString => false | _ => true end.

(** [v || d] for a query value [v] that is a string or is missing. *)
Definition or_default (v : option string) (d : string) : string :=
  match v with
  | Some s => if truthy s then s else d
  | None => d
  end.

(** *** Numbers *)

Definition of_Z (z : Z) : float :=
  match z with
  | Z0 => PrimFloat.zero
  | Zpos _ => PrimFloat.of_uint63 (Uint63.of_Z z)
  | Zneg p => PrimFloat.opp (PrimFloat.of_uint63 (Uint63.of_Z (Zpos p)))
  end.

(** The binary64 value nearest to [p / q] (ties to even), signed. *)
Definition round_ratio (neg : bool) (p q : positive) : float :=
  SF2Prim (SFdiv prec emax (S754_finite neg p 0) (S754_finite false q 0)).

(** The number denoted by the decimal [m * 10 ^ e], [0 <= m]. *)
Definition of_decimal (neg : bool) (m e : Z) : float :=
  match m with
  | Zpos p =>
      match e with
      | Z0 => round_ratio neg p 1
      | Zpos k => round_ratio neg (p * 10 ^ k) 1
      | Zneg k => round_ratio neg p (10 ^ k)
      end
  | _ => if neg then PrimFloat.neg_zero else PrimFloat.zero
  end.

Definition digitVal (c : ascii) : option Z :=
  let n := charCode c in
  if (48 <=? n) && (n <=? 57) then Some (n - 48) else None.

Definition hexVal (c : ascii) : option Z :=
  let n := charCode c in
  if (48 <=? n) && (n <=? 57) then Some (n - 48)
  else if (97 <=? n) && (n <=? 102) then Some (n - 87)
  else if (65 <=? n) && (n <=? 70) then Some (n - 55)
  else None.

(** Reads the longest run of digits in [base]: the accumulated value, the
    number of digits read and the rest of the input. *)
Fixpoint digits (val : ascii -> option Z) (base : Z) (acc cnt : Z)
    (l : list ascii) : Z * Z * list ascii :=
  match l with
  | c :: l' =>
      match val c with
      | Some d =>
          if d <? base then digits val base (acc * base + d) (cnt + 1) l'
          else (acc, cnt, l)
      | None => (acc, cnt, l)
      end
  | [] => (acc, cnt, l)
  end.

(** ExponentPart, when one is there in full; otherwise nothing is read. *)
Definition exponentPart (l : list ascii) : Z * list ascii :=
  match l with
  | c :: l1 =>
      if (charCode c =? 101) || (charCode c =? 69) then
        let '(neg, l2) :=
          match l1 with
          | s :: l2 =>
              if charCode s =? 45 then (true, l2)
              else if charCode s =? 43 then (false, l2)
              else (false, l1)
          | [] => (false, l1)
          end in
        let '(v, n, rest) := digits digitVal 10 0 0 l2 in
        if 0 <? n then ((if neg then - v else v), rest) else (0, l)
      else (0, l)
  | [] => (0, l)
  end.

Definition Infinity_chars : list ascii := list_ascii_of_string "Infinity".

Fixpoint stripPrefix (p l : list ascii) : option (list ascii) :=
  match p, l with
  | [], _ => Some l
  | a :: p', b :: l' => if Ascii.eqb a b then stripPrefix p' l' else None
  | _ :: _, [] => None
  end.

(** The longest prefix of [l] that is a StrUnsignedDecimalLiteral, as the
    number it denotes with sign [neg], and the rest of the input. *)
Definition unsignedDecimal (neg : bool) (l : list ascii)
    : option (float * list ascii) :=
  match stripPrefix Infinity_chars l with
  | Some rest =>
      Some ((if neg then PrimFloat.neg_infinity else PrimFloat.infinity), rest)
  | None =>
      let '(ip, ni, l1) := digits digitVal 10 0 0 l in
      let '(fp, nf, l2) :=
        match l1 with
        | c :: l1' =>
            if charCode c =? 46 then digits digitVal 10 ip 0 l1'
            else (ip, 0, l1)
        | [] => (ip, 0, l1)
        end in
      if (ni =? 0) && (nf =? 0) then None
      else
        let '(ex, l3) := exponentPart l2 in
        Some (of_decimal neg fp (ex - nf), l3)
  end.

(** The longest prefix of [l] that is a StrDecimalLiteral. *)
Definition strDecimal (l : list ascii) : option (float * list ascii) :=
  match l with
  | c :: l' =>
      if charCode c =? 45 then unsignedDecimal true l'
      else if charCode c =? 43 then unsignedDecimal false l'
      else unsignedDecimal false l
  | [] => None
  end.

(** NonDecimalIntegerLiteral: 0x, 0o and 0b literals, unsigned. *)
Definition nonDecimal (l : list ascii) : option float :=
  match l with
  | z :: p :: l' =>
      if charCode z =? 48 then
        let lit val base :=
          match digits val base 0 0 l' with
          | (v, n, []) => if 0 <? n then Some (of_decimal false v 0) else None
          | _ => None
          end in
        let n := charCode p in
        if (n =? 120) || (n =? 88) then lit hexVal 16
        else if (n =? 111) || (n =? 79) then lit digitVal 8
        else if (n =? 98) || (n =? 66) then lit digitVal 2
        else None
      else None
  | _ => None
  end.

(** [Number(s)] for a string [s] (StringToNumber): white space is trimmed,
    the empty string is 0, a numeric literal is rounded to the nearest
    binary64 value and anything else is NaN. *)
Definition Number (s : string) : float :=
  match trim_chars (list_ascii_of_string s) with
  | [] => PrimFloat.zero
  | l =>
      match nonDecimal l with
      | Some v => v
      | None =>
          match strDecimal l with
          | Some (v, []) => v
          | _ => PrimFloat.nan
          end
      end
  end.

(** [parseFloat(s)]: leading white space is skipped, the longest decimal
    prefix is read, NaN when there is none. *)
Definition parseFloat (s : string) : float :=
  match strDecimal (trimStart (list_ascii_of_string s)) with
  | Some (v, _) => v
  | None => PrimFloat.nan
  end.

(** Decimal digits of an integer. *)
Definition digitsOf (n : Z) : string := NilZero.string_of_int (Z.to_int n).

(** [x.toFixed(2)] for a finite [x] of magnitude below 10^21: the integer
    [n] with [n / 100] nearest to [|x|] (the larger one on a tie) is written
    with its last two digits after the point. [None] when [x] is not finite
    or [10^21 <= |x|], where toFixed returns [String(x)] instead. *)
Definition toFixed2 (x : float) : option string :=
  let body (s : bool) (n : Z) :=
    let q := digitsOf (n / 100) in
    let r := n mod 100 in
    let pad := if r <? 10 then "0" else "" in
    let sign := if s then "-" else "" in
    Some (sign ++ q ++ "." ++ pad ++ digitsOf r)%string in
  match Prim2SF x with
  | S754_zero _ => body false 0
  | S754_finite s m e =>
      if PrimFloat.leb 1e21 (PrimFloat.abs x) then None
      else
        let n :=
          match e with
          | Zneg k => (200 * Zpos m + 2 ^ Zpos k) / 2 ^ (Zpos k + 1)
          | _ => 100 * Zpos m * 2 ^ e
          end in
        body s n
  | _ => None
  end.

(** [Number(x.toFixed(2))]. Where toFixed falls back to [String(x)], the
    string reads back as [x] itself. *)
Definition Number_toFixed2 (x : float) : float :=
  match toFixed2 x with
  | Some s => Number s
  | None => x
  end.

(** [Math.min(a, b)] and [Math.max(a, b)]: NaN when an argument is NaN,
    and -0 is below +0. *)
Definition Math_min (a b : float) : float :=
  if PrimFloat.is_nan a || PrimFloat.is_nan b then PrimFloat.nan
  else if PrimFloat.ltb a b then a
  else if PrimFloat.ltb b a then b
  else if PrimFloat.get_sign a then a else b.

Definition Math_max (a b : float) : float :=
  if PrimFloat.is_nan a || PrimFloat.is_nan b then PrimFloat.nan
  else if PrimFloat.ltb a b then b
  else if PrimFloat.ltb b a then a
  else if PrimFloat.get_sign a then b else a.

(** [z >>> 0] for an integer [z]. *)
Definition toUint32 (z : Z) : Z := z mod 2 ^ 32.

(** *** Arrays *)

(** [Array.prototype.sort] with a comparator. The comparator's answer is
    read by its sign, NaN counting as 0, and the sort is stable; for a
    consistent comparator every stable sort gives the result of this
    insertion sort, where an element moves behind another one only when the
    comparator puts it strictly after. On a comparator that is not
    consistent (one that answers NaN for some pairs only) the order is the
    engine's own and may differ from this one. *)
Fixpoint sortInsert {A : Type} (cmp : A -> A -> float) (x : A) (l : list A)
    : list A :=
  match l with
  | [] => [x]
  | y :: l' =>
      if PrimFloat.ltb 0 (cmp x y) then y :: sortInsert cmp x l'
      else x :: l
  end.

Definition sort {A : Type} (cmp : A -> A -> float) (l : list A) : list A :=
  fold_right (sortInsert cmp) [] l.

End JS.

(** ** Deterministic synthesizer *)

(** An identifier as the providers send it: a JSON string (an RxCUI, a
    Geoapify place id) or a JSON integer (an OpenStreetMap element id). *)
Inductive ident :=
  | IdStr (s : string)
  | IdInt (n : Z).

(** [String(id)]. An id that is a number is an integer that binary64 holds
    exactly (magnitude below 2^53), and prints as its decimal digits. *)
Definition String_ (i : ident) : string :=
  match i with
  | IdStr s => s
  | IdInt n => JS.digitsOf n
  end.

(** The loop body of [seedNum] (server.js, lines 27-31):
    [h = (h * 31 + str.charCodeAt(i)) >>> 0]. *)
Definition seedStep (h : Z) (c : ascii) : Z :=
  JS.toUint32 (h * 31 + JS.charCode c).

Definition seedNum (str : string) : Z :=
  fold_left seedStep (list_ascii_of_string str) 0.

(** server.js, lines 33-37: the base and the variation are added as binary64
    numbers, printed with two decimals and read back. *)
Definition simulatePrice (rxcui placeId : ident) : float :=
  let base := 10 + seedNum (String_ rxcui) mod 40 in
  let variation := (JS.of_Z (seedNum (String_ placeId) mod 200) / 100)%float in
  JS.Number_toFixed2 (JS.of_Z base + variation)%float.

(** server.js, lines 39-44. *)
Definition simulateStock (placeId : ident) : string :=
  let v := seedNum (String_ placeId) mod 100 in
  if v <? 10 then "out_of_stock"
  else if v <? 35 then "low_stock"
  else "in_stock".

(** ** Errors and upstream calls *)

Record http_response := { resp_status : Z; resp_data : string }.

(** A thrown [Error]: its message, the [response] an HTTP client error
    carries when the server answered, and its [cause]. *)
#[warnings="-register-all"]
Inductive js_error :=
  | JsError (message : string) (response : option http_response)
            (cause : option js_error).

Definition message (e : js_error) : string :=
  match e with JsError m _ _ => m end.

Definition response (e : js_error) : option http_response :=
  match e with JsError _ r _ => r end.

Definition cause (e : js_error) : option js_error :=
  match e with JsError _ _ c => c end.

(** The result of a call that may throw. *)
Inductive outcome (A : Type) :=
  | Return (a : A)
  | Throw (e : js_error).
Arguments Return {A} a.
Arguments Throw {A} e.

(** server.js, lines 224-228: a new [Error] with the given message, the
    caught error as its [cause], and no [response] of its own. *)
Definition upstreamError (msg : string) (err : js_error) : js_error :=
  JsError msg None (Some err).

Record error_details := {
  det_status : Z;
  det_error : string;
  det_data : option string
}.

(** server.js, lines 230-235. *)
Definition extractError (err : js_error) : error_details :=
  match response err with
  | Some r =>
      {| det_status := resp_status r; det_error := "Upstream error";
         det_data := Some (resp_data r) |}
  | None =>
      {| det_status := 502;
         det_error := JS.or_default (Some (message err)) "Unknown error";
         det_data := None |}
  end.

(** *** Data model *)

(** The payload of [rxnormLookup]: [{ rxcui, name, suggestions }]. *)
Record drug := {
  rxcui : option string;
  drug_name : option string;
  suggestions : list string
}.

Record coords := { geo_lat : float; geo_lon : float }.

(** A pharmacy as [findPharmacies] returns it. *)
Record facility := {
  id : ident;
  name : string;
  address : option string;
  phone : option string;
  distance_km : option float;
  lat : option float;
  lon : option float
}.

(** A pharmacy with its simulated price and stock. *)
Record item := {
  place : facility;
  price_usd : float;
  availability : string
}.

(** One entry of RxNorm's [conceptProperties]. *)
Record conceptProperty := {
  cp_rxcui : option string;
  cp_name : option string
}.

Record conceptGroup := { conceptProperties : option (list conceptProperty) }.

(** What the providers answer. Each field is one HTTP call of the server,
    by its arguments; a call returns the decoded part of the body the server
    reads, or throws. [geoapify_places] and [overpass] answer with the
    pharmacies as [findPharmacies] maps them, distance included: the
    great-circle distance is trigonometry on the provider's coordinates. *)
Record upstream := {
  GEOAPIFY_KEY : option string;
  rxnav_drugs : string -> outcome (option (list conceptGroup));
  rxnav_spelling : string -> outcome (option (list string));
  geoapify_geocode : string -> outcome (list coords);
  nominatim_search : string -> outcome (list (string * string));
  geoapify_places : float -> float -> float -> outcome (list facility);
  overpass : float -> float -> float -> outcome (list facility)
}.

(** The two caches of the process: [cache.geocode] and [cache.rxnorm]. *)
Record caches := {
  cache_geocode : gmap string coords;
  cache_rxnorm : gmap string drug
}.

Definition empty_caches : caches :=
  {| cache_geocode := ∅; cache_rxnorm := ∅ |}.

(** ** Medicine resolver *)

(** [String(p.name)] *)
Definition String_opt (v : option string) : string :=
  match v with Some s => s | None => "undefined" end.

(** The inner loop over one group's properties: the first property seen
    becomes [best] when there is none yet; a property whose lower-cased name
    is the key replaces it and ends this group's loop. *)
Fixpoint scanProps (key : string) (props : list conceptProperty)
    (best : option conceptProperty) : option conceptProperty :=
  match props with
  | [] => best
  | p :: props' =>
      let best' := match best with None => Some p | Some _ => best end in
      if String.eqb (JS.toLowerCase (String_opt (cp_name p))) key then Some p
      else scanProps key props' best'
  end.

Definition findBest (key : string) (groups : list conceptGroup)
    : option conceptProperty :=
  fold_left
    (fun best g => scanProps key (default [] (conceptProperties g)) best)
    groups None.

(** server.js, lines 46-76. *)
Definition rxnormLookup (up : upstream) (st : caches) (med : string)
    : outcome drug * caches :=
  let key := JS.toLowerCase (JS.trim med) in
  match cache_rxnorm st !! key with
  | Some payload => (Return payload, st)
  | None =>
      match rxnav_drugs up med with
      | Throw err => (Throw (upstreamError "RxNorm lookup failed" err), st)
      | Return data =>
          match findBest key (default [] data) with
          | None =>
              match rxnav_spelling up med with
              | Throw err =>
                  (Throw (upstreamError "RxNorm lookup failed" err), st)
              | Return s =>
                  let payload :=
                    {| rxcui := None; drug_name := None;
                       suggestions := default [] s |} in
                  (Return payload,
                   {| cache_geocode := cache_geocode st;
                      cache_rxnorm := <[key := payload]> (cache_rxnorm st) |})
              end
          | Some best =>
              let payload :=
                {| rxcui := cp_rxcui best; drug_name := cp_name best;
                   suggestions := [] |} in
              (Return payload,
               {| cache_geocode := cache_geocode st;
                  cache_rxnorm := <[key := payload]> (cache_rxnorm st) |})
          end
      end
  end.

(** ** Location resolver *)

Definition keyConfigured (up : upstream) : bool :=
  match GEOAPIFY_KEY up with Some k => JS.truthy k | None => false end.

(** server.js, lines 78-105. An empty answer is returned and not cached. *)
Definition geocodeText (up : upstream) (st : caches) (text : string)
    : outcome (option coords) * caches :=
  let key := JS.toLowerCase (JS.trim text) in
  let store payload :=
    (Return (Some payload),
     {| cache_geocode := <[key := payload]> (cache_geocode st);
        cache_rxnorm := cache_rxnorm st |}) in
  match cache_geocode st !! key with
  | Some payload => (Return (Some payload), st)
  | None =>
      if keyConfigured up then
        match geoapify_geocode up text with
        | Throw err => (Throw (upstreamError "Geocoding failed" err), st)
        | Return [] => (Return None, st)
        | Return (feat :: _) => store feat
        end
      else
        match nominatim_search up text with
        | Throw err => (Throw (upstreamError "Geocoding failed" err), st)
        | Return [] => (Return None, st)
        | Return ((la, lo) :: _) =>
            store {| geo_lat := JS.parseFloat la; geo_lon := JS.parseFloat lo |}
        end
  end.

(** ** Facility search *)

(** server.js, lines 107-156. *)
Definition findPharmacies (up : upstream) (la lo radiusMeters : float)
    : outcome (list facility) :=
  let answer :=
    if keyConfigured up then geoapify_places up la lo radiusMeters
    else overpass up la lo radiusMeters in
  match answer with
  | Return places => Return places
  | Throw err => Throw (upstreamError "Pharmacy search failed" err)
  end.

(** ** The search endpoint *)

(** [req.query]: every parameter is a string or is missing. *)
Record query := {
  q_med : option string;
  q_location : option string;
  q_radius_km : option string;
  q_price_min : option string;
  q_price_max : option string;
  q_stock : option string;
  q_sort : option string
}.

(** The body of a successful answer. *)
Record result := {
  res_name : option string;
  res_rxcui : option string;
  res_text : string;
  res_lat : float;
  res_lon : float;
  total : nat;
  items : list item
}.

Inductive body :=
  | ErrorBody (error : string)
  | InvalidMedicineBody (error : string) (suggestions : list string)
  | DetailsBody (details : error_details)
  | ResultBody (r : result).

(** What [res.status(..).json(..)] sends; [res.json] alone sends 200. *)
Record reply := { status : Z; json : body }.

(** Line 164: [Number(req.query.radius_km || 10)] *)
Definition radiusKmOf (q : query) : float :=
  match q_radius_km q with
  | Some s => if JS.truthy s then JS.Number s else 10%float
  | None => 10%float
  end.

(** Lines 165-166: [v ? Number(v) : null] *)
Definition boundOf (v : option string) : option float :=
  match v with
  | Some s => if JS.truthy s then Some (JS.Number s) else None
  | None => None
  end.

(** Line 181, the radius handed to [findPharmacies]:
    [Math.max(1000, Math.min(50000, radiusKm * 1000))]. *)
Definition radiusMeters (radiusKm : float) : float :=
  JS.Math_max 1000 (JS.Math_min 50000 (radiusKm * 1000)%float).

(** Lines 184-188: [places.map(p => ({...p, price_usd, availability}))] *)
Definition enrich (rx : string) (places : list facility) : list item :=
  map (fun p =>
         {| place := p;
            price_usd := simulatePrice (IdStr rx) (id p);
            availability := simulateStock (id p) |})
      places.

(** Lines 191-192: [i.price_usd >= priceMin], then [i.price_usd <= priceMax],
    each when its bound is not [null]. *)
Definition filterPrice (priceMin priceMax : option float) (l : list item)
    : list item :=
  let l1 :=
    match priceMin with
    | Some lo => List.filter (fun i => PrimFloat.leb lo (price_usd i)) l
    | None => l
    end in
  match priceMax with
  | Some hi => List.filter (fun i => PrimFloat.leb (price_usd i) hi) l1
  | None => l1
  end.

(** Lines 194-195. *)
Definition filterStock (stockFilter : string) (l : list item) : list item :=
  let l1 :=
    if String.eqb stockFilter "in_stock"
    then List.filter (fun i => String.eqb (availability i) "in_stock") l
    else l in
  if String.eqb stockFilter "low_stock"
  then List.filter (fun i => String.eqb (availability i) "low_stock") l1
  else l1.

(** [v ?? Infinity] *)
Definition orInfinity (v : option float) : float :=
  match v with Some d => d | None => PrimFloat.infinity end.

Definition byPriceAsc (a b : item) : float :=
  (price_usd a - price_usd b)%float.

Definition byPriceDesc (a b : item) : float :=
  (price_usd b - price_usd a)%float.

Definition byDistance (a b : item) : float :=
  (orInfinity (distance_km (place a)) - orInfinity (distance_km (place b)))%float.

(** Lines 198-200: the three comparators and the three guarded sorts. *)
Definition applySort (sortBy : string) (l : list item) : list item :=
  if String.eqb sortBy "price_asc" then JS.sort byPriceAsc l
  else if String.eqb sortBy "price_desc" then JS.sort byPriceDesc l
  else if String.eqb sortBy "distance" then JS.sort byDistance l
  else l.

(** Lines 208-211, the [catch] of the handler:
    [res.status(details.status || 502).json(details)]. *)
Definition failure (err : js_error) : reply :=
  let details := extractError err in
  {| status := if det_status details =? 0 then 502 else det_status details;
     json := DetailsBody details |}.

(** [drug.rxcui] when it is truthy. *)
Definition truthyId (v : option string) : option string :=
  match v with
  | Some s => if JS.truthy s then Some s else None
  | None => None
  end.

(** Lines 160-212, the handler of [GET /api/search]: the answer it sends and
    the caches it leaves. *)
Definition search (up : upstream) (st : caches) (q : query) : reply * caches :=
  let med := JS.trim (JS.or_default (q_med q) "") in
  let location := JS.trim (JS.or_default (q_location q) "") in
  let radiusKm := radiusKmOf q in
  let priceMin := boundOf (q_price_min q) in
  let priceMax := boundOf (q_price_max q) in
  let stockFilter := JS.or_default (q_stock q) "any" in
  let sortBy := JS.or_default (q_sort q) "distance" in
  if negb (JS.truthy med) then
    ({| status := 400; json := ErrorBody "Missing parameter: med" |}, st)
  else if negb (JS.truthy location) then
    ({| status := 400; json := ErrorBody "Missing parameter: location" |}, st)
  else
    match rxnormLookup up st med with
    | (Throw err, st1) => (failure err, st1)
    | (Return d, st1) =>
        match truthyId (rxcui d) with
        | None =>
            ({| status := 400;
                json := InvalidMedicineBody "Invalid medicine name"
                          (suggestions d) |}, st1)
        | Some rx =>
            match geocodeText up st1 location with
            | (Throw err, st2) => (failure err, st2)
            | (Return None, st2) =>
                ({| status := 404; json := ErrorBody "Location not found" |},
                 st2)
            | (Return (Some geo), st2) =>
                match findPharmacies up (geo_lat geo) (geo_lon geo)
                        (radiusMeters radiusKm) with
                | Throw err => (failure err, st2)
                | Return places =>
                    let items0 := enrich rx places in
                    let items1 := filterPrice priceMin priceMax items0 in
                    let items2 := filterStock stockFilter items1 in
                    let items3 := applySort sortBy items2 in
                    ({| status := 200;
                        json := ResultBody
                          {| res_name := drug_name d; res_rxcui := rxcui d;
                             res_text := location;
                             res_lat := geo_lat geo; res_lon := geo_lon geo;
                             total := length items3; items := items3 |} |},
                     st2)
                end
            end
        end
    end.

(** ** Specification-side definitions *)

(** The polynomial rolling hash with multiplier 31, reduced once at the end:
    [(c0 * 31^(n-1) + ... + c(n-1)) mod 2^32]. *)
Definition polyStep (h : Z) (c : ascii) : Z := h * 31 + JS.charCode c.

Definition polyHash (str : string) : Z :=
  fold_left polyStep (list_ascii_of_string str) 0 mod 2 ^ 32.

(** The price of the specification, in cents: one hundred times
    [10 + (hash(drugId) mod 40) + (hash(facilityId) mod 200) / 100], which has
    two decimals as it stands. *)
Definition specCents (drugId facilityId : ident) : Z :=
  1000 + 100 * (polyHash (String_ drugId) mod 40)
  + polyHash (String_ facilityId) mod 200.

(** The residue that decides the stock level:
    [hash(facilityId) mod 100]. *)
Definition stockResidue (facilityId : ident) : Z :=
  polyHash (String_ facilityId) mod 100.

(** The number a price of [n] cents is: the binary64 value nearest to the
    decimal [n / 100]. *)
Definition ofCents (n : Z) : float := JS.of_decimal false n (-2).

(** The integers [0 .. n-1]. *)
Definition zrange (n : nat) : list Z := map Z.of_nat (seq 0 n).

(** The computation of [simulatePrice] from the two residues, checked against
    the decimal price and against the bounds. *)
Definition priceFrom (a b : Z) : float :=
  JS.Number_toFixed2 (JS.of_Z (10 + a) + JS.of_Z b / 100)%float.

Definition priceCheck (a b : Z) : bool :=
  PrimFloat.Leibniz.eqb (priceFrom a b) (ofCents (1000 + 100 * a + b))
  && PrimFloat.leb 10 (priceFrom a b)
  && PrimFloat.ltb (priceFrom a b) 52.

Definition priceRow (a : Z) : bool := forallb (priceCheck a) (zrange 200).

(** Facts on binary64 numbers are stated on their [spec_float] view. *)
Module F64.

(** Zero or a finite non-zero number. *)
Definition finiteSF (x : spec_float) : bool :=
  match x with
  | S754_zero _ | S754_finite _ _ _ => true
  | _ => false
  end.

(** The value of a finite number, in units of 2^-1074. *)
Definition units (x : spec_float) : Z :=
  match x with
  | S754_finite s m e => cond_Zopp s (Zpos m * 2 ^ (e + 1074))
  | _ => 0
  end.

(** Not zero, not NaN, and of sign [s]. *)
Definition signedNonzero (s : bool) (r : spec_float) : bool :=
  match r with
  | S754_finite s' _ _ | S754_infinity s' => Bool.eqb s s'
  | _ => false
  end.

End F64.

(** *** The distance order *)

Definition dist (i : item) : option float := distance_km (place i).

(** A distance is absent or is a finite number of kilometres. *)
Definition distOk (d : option float) : bool :=
  match d with
  | Some x => PrimFloat.is_finite x
  | None => true
  end.

(** Ascending distance, an absent distance after every present one. *)
Definition distLe (a b : option float) : bool :=
  match a, b with
  | Some x, Some y => PrimFloat.leb x y
  | Some _, None => true
  | None, None => true
  | None, Some _ => false
  end.

Definition DistLe (a b : item) : Prop := distLe (dist a) (dist b) = true.

(** *** Requests and resolutions *)

(** The request without its price bounds. *)
Definition withoutBounds (q : query) : query :=
  {| q_med := q_med q; q_location := q_location q;
     q_radius_km := q_radius_km q;
     q_price_min := None; q_price_max := None;
     q_stock := q_stock q; q_sort := q_sort q |}.

(** The invariant of a DrugResolution as the specification words it:
    identifier present iff name present iff no suggestions. *)
Definition drugInvariant (d : drug) : Prop :=
  (is_Some (rxcui d) <-> is_Some (drug_name d))
  /\ (is_Some (drug_name d) <-> suggestions d = []).

(** What the resolver keeps of it: identifier and name come together, and
    with them there are no suggestions. *)
Definition drugOk (d : drug) : Prop :=
  (is_Some (rxcui d) <-> is_Some (drug_name d))
  /\ (is_Some (rxcui d) -> suggestions d = []).

(** A candidate of the provider that carries both its fields. *)
Definition completeProperty (p : conceptProperty) : bool :=
  match cp_rxcui p, cp_name p with
  | Some _, Some _ => true
  | _, _ => false
  end.

Definition completeGroups (groups : list conceptGroup) : bool :=
  forallb (fun g => forallb completeProperty (default [] (conceptProperties g)))
          groups.

(** The provider's candidates always carry an identifier and a name. *)
Definition completeProvider (up : upstream) : Prop :=
  forall med groups,
    rxnav_drugs up med = Return (Some groups) -> completeGroups groups = true.

(** The caches the process can hold: empty when it starts, then what each
    request leaves, whatever the providers answer at the time of the request
    as long as their candidates are complete. *)
Inductive reachable : caches -> Prop :=
  | reachable_start : reachable empty_caches
  | reachable_search up st q :
      completeProvider up -> reachable st -> reachable (snd (search up st q)).

(** *** Sample data *)

Definition pharmacy (n : Z) (d : option float) : facility :=
  {| id := IdInt n; name := "Pharmacy"; address := None; phone := None;
     distance_km := d; lat := None; lon := None |}.

(** RxNorm knows one drug, the location resolves through Nominatim, and
    Overpass answers three pharmacies: 5 km away, without coordinates, and
    1 km away. *)
Definition sampleUpstream : upstream :=
  {| GEOAPIFY_KEY := None;
     rxnav_drugs := fun _ =>
       Return (Some [{| conceptProperties :=
                          Some [{| cp_rxcui := Some "723";
                                   cp_name := Some "Amoxicillin" |}] |}]);
     rxnav_spelling := fun _ => Return None;
     geoapify_geocode := fun _ => Return [];
     nominatim_search := fun _ => Return [("42.5", "-71.25")];
     geoapify_places := fun _ _ _ => Return [];
     overpass := fun _ _ _ =>
       Return [pharmacy 101 (Some 5%float); pharmacy 110 None;
               pharmacy 125 (Some 1%float)] |}.

(** RxNorm knows nothing of the name and has no spelling to suggest. *)
Definition silentUpstream : upstream :=
  {| GEOAPIFY_KEY := None;
     rxnav_drugs := fun _ => Return (Some []);
     rxnav_spelling := fun _ => Return None;
     geoapify_geocode := fun _ => Return [];
     nominatim_search := fun _ => Return [];
     geoapify_places := fun _ _ _ => Return [];
     overpass := fun _ _ _ => Return [] |}.

(** As [sampleUpstream], but Overpass answers one pharmacy whose distance
    is the radius it was asked for. *)
Definition echoUpstream : upstream :=
  {| GEOAPIFY_KEY := None;
     rxnav_drugs := rxnav_drugs sampleUpstream;
     rxnav_spelling := rxnav_spelling sampleUpstream;
     geoapify_geocode := geoapify_geocode sampleUpstream;
     nominatim_search := nominatim_search sampleUpstream;
     geoapify_places := geoapify_places sampleUpstream;
     overpass := fun _ _ radius => Return [pharmacy 101 (Some radius)] |}.

Definition sampleQuery (radius price_min price_max stock sort : option string)
    : query :=
  {| q_med := Some "Amoxicillin"; q_location := Some "Boston, MA";
     q_radius_km := radius; q_price_min := price_min;
     q_price_max := price_max; q_stock := stock; q_sort := sort |}.


(** The answer alone. *)
Definition answer (up : upstream) (st : caches) (q : query) : reply :=
  fst (search up st q).

Definition emptyResult : result :=
  {| res_name := None; res_rxcui := None; res_text := "";
     res_lat := 0; res_lon := 0; total := 0; items := [] |}.

(** The body of a successful answer. *)
Definition resultOf (r : reply) : result :=
  match json r with
  | ResultBody res => res
  | _ => emptyResult
  end.

(** The items of an answer, none when the answer is an error. *)
Definition itemsOf (r : reply) : list item := items (resultOf r).

Definition defaultQuery : query := sampleQuery None None None None None.

Definition boundedQuery : query :=
  sampleQuery None (Some "26.5") (Some "26.9") None None.

Definition inStockQuery : query :=
  sampleQuery None None None (Some "in_stock") None.

Definition malformedQuery : query :=
  sampleQuery None (Some "abc") None None None.

Definition nearestQuery : query :=
  sampleQuery None None None None (Some "nearest").

Definition abcRadiusQuery : query :=
  sampleQuery (Some "abc") None None None None.

(** The resolution of a name RxNorm neither knows nor can correct. *)
Definition unresolved : drug :=
  {| rxcui := None; drug_name := None; suggestions := [] |}.

(** Neighbours in the list are in the distance order. *)
Fixpoint ascendingDist (l : list item) : bool :=
  match l with
  | a :: l' =>
      match l' with
      | b :: _ => distLe (dist a) (dist b) && ascendingDist l'
      | [] => true
      end
  | [] => true
  end.

(** *** Error kinds *)

Inductive errorKind :=
  | MissingParameter
  | InvalidMedicine
  | LocationNotFound
  | UpstreamFailure.

(** The HTTP status of each kind. *)
Definition codeOf (k : errorKind) : Z :=
  match k with
  | MissingParameter => 400
  | InvalidMedicine => 400
  | LocationNotFound => 404
  | UpstreamFailure => 502
  end.

(** The kind of error an answer reports, by its body; none for a result. *)
Definition kindOf (r : reply) : option errorKind :=
  match json r with
  | ErrorBody e =>
      if String.eqb e "Location not found" then Some LocationNotFound
      else Some MissingParameter
  | InvalidMedicineBody _ _ => Some InvalidMedicine
  | DetailsBody _ => Some UpstreamFailure
  | ResultBody _ => None
  end.

(** The messages of the three upstream failures. *)
Definition upstreamMessages : list string :=
  ["RxNorm lookup failed"; "Geocoding failed"; "Pharmacy search failed"].

(** *** Candidates of the medicine resolver *)

(** A candidate whose name is the key once lower-cased. *)
Definition exactMatch (key : string) (p : conceptProperty) : bool :=
  String.eqb (JS.toLowerCase (String_opt (cp_name p))) key.

(** All the candidates of an answer, in the provider's order. *)
Definition candidates (groups : list conceptGroup) : list conceptProperty :=
  concat (map (fun g => default [] (conceptProperties g)) groups).

(** The first exact match of the last group that has one. *)
Fixpoint lastGroupMatch (key : string) (groups : list conceptGroup)
    : option conceptProperty :=
  match groups with
  | [] => None
  | g :: groups' =>
      match lastGroupMatch key groups' with
      | Some p => Some p
      | None => find (exactMatch key) (default [] (conceptProperties g))
      end
  end.

(** *** The filters as one predicate *)

(** An item passes every filter that is active. *)
Definition passes (priceMin priceMax : option float) (stockFilter : string)
    (i : item) : bool :=
  match priceMin with
  | Some lo => PrimFloat.leb lo (price_usd i)
  | None => true
  end
  && match priceMax with
     | Some hi => PrimFloat.leb (price_usd i) hi
     | None => true
     end
  && (if String.eqb stockFilter "in_stock" || String.eqb stockFilter "low_stock"
      then String.eqb (availability i) stockFilter
      else true).

(** Ascending and descending price. *)
Definition PriceLe (a b : item) : Prop :=
  PrimFloat.leb (price_usd a) (price_usd b) = true.

Definition PriceGe (a b : item) : Prop :=
  PrimFloat.leb (price_usd b) (price_usd a) = true.

(** ** What Facility Search makes of the providers' answers

    The two bodies of [findPharmacies] (server.js, lines 107-156) map each
    element of the provider's answer to a pharmacy. The great-circle
    distance [haversineKm] (lines 237-245) is trigonometry on binary64
    numbers; the mapping takes it as a parameter. *)

(** Truthiness of a number: neither 0 nor NaN. *)
Definition truthyNumber (x : float) : bool :=
  negb (PrimFloat.is_nan x || PrimFloat.is_zero x).

(** A number when it is there and truthy. *)
Definition truthyNum (v : option float) : option float :=
  match v with
  | Some x => if truthyNumber x then Some x else None
  | None => None
  end.

(** [a || b] on two values that are a string or missing. *)
Definition orElse (a b : option string) : option string :=
  match truthyId a with
  | Some s => Some s
  | None => b
  end.

(** [a ?? b] *)
Definition nullish {A : Type} (a b : option A) : option A :=
  match a with
  | Some x => Some x
  | None => b
  end.

(** [parts.filter(Boolean)] *)
Definition filterBoolean (parts : list (option string)) : list string :=
  omap truthyId parts.

(** [parts.join(sep)] *)
Fixpoint join (sep : string) (parts : list string) : string :=
  match parts with
  | [] => ""
  | p :: rest =>
      match rest with
      | [] => p
      | _ :: _ => (p ++ sep ++ join sep rest)%string
      end
  end.

(** The properties of a Geoapify feature that the server reads. *)
Record geoapifyFeature := {
  gf_place_id : string;
  gf_name : option string;
  gf_formatted : option string;
  gf_street : option string;
  gf_city : option string;
  gf_contact_phone : option string;
  gf_distance : option float;
  gf_lat : option float;
  gf_lon : option float
}.

(** The parts of an Overpass element that the server reads: its own
    coordinates, those of its centre, and its tags. *)
Record overpassElement := {
  oe_id : Z;
  oe_lat : option float;
  oe_lon : option float;
  oe_center_lat : option float;
  oe_center_lon : option float;
  oe_name : option string;
  oe_housenumber : option string;
  oe_street : option string;
  oe_city : option string;
  oe_postcode : option string;
  oe_phone : option string;
  oe_contact_phone : option string
}.

(** The two providers of pharmacies, by what they send. *)
Record placesProviders := {
  geoapify_features : float -> float -> float -> outcome (list geoapifyFeature);
  overpass_elements : float -> float -> float -> outcome (list overpassElement)
}.

Definition mapOutcome {A B : Type} (f : A -> B) (o : outcome A) : outcome B :=
  match o with
  | Return a => Return (f a)
  | Throw e => Throw e
  end.

Section FacilityMapping.

Variable haversineKm : float -> float -> float -> float -> float.

(** A missing coordinate is [undefined], which is NaN in arithmetic. *)
Definition orNaN (v : option float) : float :=
  match v with
  | Some x => x
  | None => PrimFloat.nan
  end.

(** Lines 113-121. *)
Definition fromGeoapify (la lo : float) (f : geoapifyFeature) : facility :=
  {| id := IdStr (gf_place_id f);
     name := default "Unknown Pharmacy" (truthyId (gf_name f));
     address :=
       Some (default (join ", " (filterBoolean [gf_street f; gf_city f]))
                     (truthyId (gf_formatted f)));
     phone := truthyId (gf_contact_phone f);
     distance_km :=
       Some (match truthyNum (gf_distance f) with
             | Some d => JS.Number_toFixed2 (d / 1000)%float
             | None => haversineKm la lo (orNaN (gf_lat f)) (orNaN (gf_lon f))
             end);
     lat := gf_lat f;
     lon := gf_lon f |}.

(** Lines 137-152. *)
Definition fromOverpass (la lo : float) (e : overpassElement) : facility :=
  let pLat := nullish (oe_lat e) (oe_center_lat e) in
  let pLon := nullish (oe_lon e) (oe_center_lon e) in
  let addressParts :=
    filterBoolean [oe_housenumber e; oe_street e; oe_city e; oe_postcode e] in
  {| id := IdInt (oe_id e);
     name := default "Pharmacy" (truthyId (oe_name e));
     address :=
       match addressParts with
       | [] => None
       | _ :: _ => Some (join ", " addressParts)
       end;
     phone := orElse (oe_phone e) (truthyId (oe_contact_phone e));
     distance_km :=
       match truthyNum pLat, truthyNum pLon with
       | Some a, Some b => Some (JS.Number_toFixed2 (haversineKm la lo a b))
       | _, _ => None
       end;
     lat := pLat;
     lon := pLon |}.

(** The providers [up] with the pharmacies mapped from what [raw] sends. *)
Definition withPlaces (up : upstream) (raw : placesProviders) : upstream :=
  {| GEOAPIFY_KEY := GEOAPIFY_KEY up;
     rxnav_drugs := rxnav_drugs up;
     rxnav_spelling := rxnav_spelling up;
     geoapify_geocode := geoapify_geocode up;
     nominatim_search := nominatim_search up;
     geoapify_places := fun la lo m =>
       mapOutcome (map (fromGeoapify la lo)) (geoapify_features raw la lo m);
     overpass := fun la lo m =>
       mapOutcome (map (fromOverpass la lo)) (overpass_elements raw la lo m) |}.

End FacilityMapping.

(** The id of an element, as the pharmacy carries it. *)
Definition geoapifyId (f : geoapifyFeature) : ident := IdStr (gf_place_id f).

Definition overpassId (e : overpassElement) : ident := IdInt (oe_id e).

(** An Overpass node with its own coordinates and a full address, and a way
    that has a centre only and no tags. *)
Definition sampleElements : list overpassElement :=
  [{| oe_id := 101; oe_lat := Some 42.5%float; oe_lon := Some (-71.25)%float;
      oe_center_lat := None; oe_center_lon := None;
      oe_name := Some "Corner Pharmacy"; oe_housenumber := Some "12";
      oe_street := Some "Main St"; oe_city := None;
      oe_postcode := Some "02101"; oe_phone := None;
      oe_contact_phone := Some "+1 617 555 0100" |};
   {| oe_id := 110; oe_lat := None; oe_lon := None;
      oe_center_lat := Some 42.5%float; oe_center_lon := None;
      oe_name := None; oe_housenumber := None; oe_street := None;
      oe_city := None; oe_postcode := None; oe_phone := None;
      oe_contact_phone := None |}].

Definition sampleRaw : placesProviders :=
  {| geoapify_features := fun _ _ _ => Return [];
     overpass_elements := fun _ _ _ => Return sampleElements |}.

(** A distance function for the samples: the difference of the latitudes. *)
Definition sampleDistance (la lo la' lo' : float) : float :=
  PrimFloat.abs (la' - la)%float.

(** ** The page's script

    The pure parts of the browser script (src/unnamed/part_000): the HTML
    escaping of the cards, the price and stock badges, the radius sent with a
    request and the message shown for a failed one. *)

(** The characters the pattern of [escapeHtml] matches: the ampersand, the
    two angle brackets and the double quote (code 34). *)
Definition isHtmlSpecial (c : ascii) : bool :=
  let n := JS.charCode c in
  (n =? 38) || (n =? 60) || (n =? 62) || (n =? 34).

(** The characters that open or close markup or end an attribute value:
    the two angle brackets and the double quote. *)
Definition isMarkup (c : ascii) : bool :=
  let n := JS.charCode c in
  (n =? 60) || (n =? 62) || (n =? 34).

(** The table of [escapeHtml], for one character. *)
Definition entityOf (c : ascii) : string :=
  let n := JS.charCode c in
  if n =? 38 then "&amp;"
  else if n =? 60 then "&lt;"
  else if n =? 62 then "&gt;"
  else "&quot;".

(** What replaces one match of the pattern, a maximal run of such
    characters (the class is followed by [+]). The callback looks the whole
    match up in the table; a match of two characters or more is not a key of
    it, the callback returns [undefined] and [replace] inserts its text. *)
Definition replaceRun (run : list ascii) : list ascii :=
  match run with
  | [] => []
  | [c] => list_ascii_of_string (entityOf c)
  | _ :: _ :: _ => list_ascii_of_string "undefined"
  end.

(** The replacement, reading the input with the current match in [run]. *)
Fixpoint escapeFrom (run l : list ascii) : list ascii :=
  match l with
  | [] => replaceRun run
  | c :: l' =>
      if isHtmlSpecial c then escapeFrom (run ++ [c]) l'
      else replaceRun run ++ c :: escapeFrom [] l'
  end.

(** Line 46-48. *)
Definition escapeHtml (str : string) : string :=
  string_of_list_ascii (escapeFrom [] (list_ascii_of_string str)).

(** Escaping character by character, as the table reads. *)
Definition escapeEach (str : string) : string :=
  string_of_list_ascii
    (flat_map (fun c => if isHtmlSpecial c
                        then list_ascii_of_string (entityOf c) else [c])
              (list_ascii_of_string str)).

(** The text begins, or ends, with a character the pattern does not match,
    or is empty. *)
Definition startsPlain (l : list ascii) : bool :=
  match l with
  | c :: _ => negb (isHtmlSpecial c)
  | [] => true
  end.

Definition endsPlain (l : list ascii) : bool := startsPlain (rev l).

(** No two special characters in a row. *)
Fixpoint isolatedSpecials (l : list ascii) : bool :=
  match l with
  | c :: l' =>
      match l' with
      | d :: _ => negb (isHtmlSpecial c && isHtmlSpecial d) && isolatedSpecials l'
      | [] => true
      end
  | [] => true
  end.

(** Line 74, the radius the page sends:
    [Math.max(1, Math.min(50, Number(els.radius.value) || 10))]. *)
Definition clientRadius (value : string) : float :=
  let n := JS.Number value in
  JS.Math_max 1 (JS.Math_min 50 (if truthyNumber n then n else 10)).

(** Line 39, the price badge: [item.price_usd.toFixed(2)]. *)
Definition priceBadge (i : item) : option string := JS.toFixed2 (price_usd i).

(** The two decimals of a price of [n] cents. *)
Definition centsText (n : Z) : string :=
  let pad := if n mod 100 <? 10 then "0" else "" in
  (JS.digitsOf (n / 100) ++ "." ++ pad ++ JS.digitsOf (n mod 100))%string.

Definition badgeCheck (a b : Z) : bool :=
  match JS.toFixed2 (priceFrom a b) with
  | Some s => String.eqb s (centsText (1000 + 100 * a + b))
  | None => false
  end.

Definition badgeRow (a : Z) : bool := forallb (badgeCheck a) (zrange 200).

(** Lines 83-87, the message for an answer that is not a success:
    [data.error] with up to five suggestions when there are some, and
    ['Request failed'] when the body carries no error text. *)
Definition failedMessage (b : body) : string :=
  match b with
  | InvalidMedicineBody e (s :: sg) =>
      (e ++ ". Did you mean: " ++ join ", " (firstn 5 (s :: sg)) ++ "?")%string
  | InvalidMedicineBody e [] => JS.or_default (Some e) "Request failed"
  | ErrorBody e => JS.or_default (Some e) "Request failed"
  | DetailsBody d => JS.or_default (Some (det_error d)) "Request failed"
  | ResultBody _ => "Request failed"
  end.

(** *** More samples *)

(** What [sampleUpstream] resolves the sample medicine and location to. *)
Definition amoxicillin : drug :=
  {| rxcui := Some "723"; drug_name := Some "Amoxicillin"; suggestions := [] |}.

Definition boston : coords :=
  {| geo_lat := 42.5%float; geo_lon := (-71.25)%float |}.

(** RxNorm and the geocoders are unreachable; Overpass answers as in
    [sampleUpstream]. *)
Definition offlineUpstream : upstream :=
  {| GEOAPIFY_KEY := None;
     rxnav_drugs := fun _ => Throw (JsError "Network Error" None None);
     rxnav_spelling := fun _ => Throw (JsError "Network Error" None None);
     geoapify_geocode := fun _ => Throw (JsError "Network Error" None None);
     nominatim_search := fun _ => Throw (JsError "Network Error" None None);
     geoapify_places := geoapify_places sampleUpstream;
     overpass := overpass sampleUpstream |}.

(** RxNorm answers as in [silentUpstream], the other providers as in
    [sampleUpstream]. *)
Definition unknownDrugUpstream : upstream :=
  {| GEOAPIFY_KEY := None;
     rxnav_drugs := rxnav_drugs silentUpstream;
     rxnav_spelling := rxnav_spelling silentUpstream;
     geoapify_geocode := geoapify_geocode sampleUpstream;
     nominatim_search := nominatim_search sampleUpstream;
     geoapify_places := geoapify_places sampleUpstream;
     overpass := overpass sampleUpstream |}.

(** The caches after the sample medicine, the sample location and the
    default request. *)
Definition resolvedCaches : caches :=
  snd (rxnormLookup sampleUpstream empty_caches "Amoxicillin").

Definition locatedCaches : caches :=
  snd (geocodeText sampleUpstream empty_caches "Boston, MA").

Definition warmCaches : caches :=
  snd (search sampleUpstream empty_caches defaultQuery).

Definition priceAscQuery : query :=
  sampleQuery None None None None (Some "price_asc").

(** A request whose medicine is white space. *)
Definition blankQuery : query :=
  {| q_med := Some "   "; q_location := Some "Boston, MA";
     q_radius_km := None; q_price_min := None; q_price_max := None;
     q_stock := None; q_sort := None |}.

(** *** Causes and answers *)

(** Lines 162-163: the two required parameters, trimmed. *)
Definition medOf (q : query) : string :=
  JS.trim (JS.or_default (q_med q) "").

Definition locationOf (q : query) : string :=
  JS.trim (JS.or_default (q_location q) "").

(** The body of an upstream failure: the generic code, the message of the
    stage that failed, and nothing of the provider's answer. *)
Definition upstreamDetails (msg : string) : body :=
  DetailsBody {| det_status := 502; det_error := msg; det_data := None |}.

(** The answer reports the error kind [k]: its body is [b], of that kind,
    and its status is the code of the kind. *)
Definition endsWith (a : reply) (k : errorKind) (b : body) : Prop :=
  kindOf a = Some k /\ status a = codeOf k /\ json a = b.

(** *** Samples with a distance that is not a number *)





(** *** A name that RxNorm can correct *)

(** RxNorm has no candidate for the name and suggests two spellings. *)
Definition spellingUpstream : upstream :=
  {| GEOAPIFY_KEY := None;
     rxnav_drugs := fun _ => Return (Some []);
     rxnav_spelling := fun _ => Return (Some ["amoxicillin"; "amoxapine"]);
     geoapify_geocode := fun _ => Return [];
     nominatim_search := fun _ => Return [];
     geoapify_places := fun _ _ _ => Return [];
     overpass := fun _ _ _ => Return [] |}.

Definition misspelled : drug :=
  {| rxcui := None; drug_name := None;
     suggestions := ["amoxicillin"; "amoxapine"] |}.

(** * Properties *)

(** ** Binary64 comparison and subtraction

    The server's comparator subtracts two numbers and the sort reads the sign
    of the difference; these lemmas relate that sign to the order of the two
    numbers, from the specification of the binary64 operations. *)

Module F64Facts.
Import F64.

Lemma fexp_eq e : fexp prec emax e = Z.max (e - 53) (-1074).
Proof. reflexivity. Qed.

Lemma digits2_bounds m :
  2 ^ (Zpos (digits2_pos m) - 1) <= Zpos m < 2 ^ Zpos (digits2_pos m).
Proof.
  induction m as [m IH | m IH |]; cbn [digits2_pos].
  - rewrite Pos2Z.inj_succ.
    replace (Z.succ (Zpos (digits2_pos m)) - 1) with (Z.succ (Zpos (digits2_pos m) - 1)) by lia.
    rewrite !Z.pow_succ_r by lia. lia.
  - rewrite Pos2Z.inj_succ.
    replace (Z.succ (Zpos (digits2_pos m)) - 1) with (Z.succ (Zpos (digits2_pos m) - 1)) by lia.
    rewrite !Z.pow_succ_r by lia. lia.
  - cbn. lia.
Qed.

Lemma bounded_inv m e :
  bounded prec emax m e = true ->
  -1074 <= e /\ Zpos m < 2 ^ 53 /\ (-1074 < e -> 2 ^ 52 <= Zpos m).
Proof.
  unfold bounded, canonical_mantissa. rewrite fexp_eq.
  intros H. apply andb_prop in H as [H _]. apply Z.eqb_eq in H.
  pose proof (digits2_bounds m) as [Hlo Hhi].
  set (d := Zpos (digits2_pos m)) in *.
  split; [lia|]. split.
  - apply Z.lt_le_trans with (1 := Hhi). apply Z.pow_le_mono_r; lia.
  - intros He. assert (d = 53) as -> by lia. exact Hlo.
Qed.

Lemma SFcompare_antisym x y :
  SFcompare y x = option_map CompOpp (SFcompare x y).
Proof.
  destruct x as [sx | sx | | sx mx ex], y as [sy | sy | | sy my ey];
    cbn; try destruct sx; try destruct sy; try reflexivity.
  - rewrite (Z.compare_antisym ey ex).
    destruct (ey ?= ex); cbn; try reflexivity.
    now rewrite (Pos.compare_cont_antisym mx my Eq).
  - rewrite (Z.compare_antisym ey ex).
    destruct (ey ?= ex); cbn; try reflexivity.
    now rewrite (Pos.compare_cont_antisym mx my Eq).
Qed.

(** Two valid finite numbers compare as their values do. *)
Lemma pos_scaled_lt mx ex my ey :
  bounded prec emax mx ex = true -> bounded prec emax my ey = true ->
  ex < ey -> Zpos mx * 2 ^ (ex + 1074) < Zpos my * 2 ^ (ey + 1074).
Proof.
  intros Hx Hy Hlt.
  apply bounded_inv in Hx as (Hex & Hmx & _).
  apply bounded_inv in Hy as (Hey & _ & Hmy).
  specialize (Hmy ltac:(lia)).
  apply Z.lt_le_trans with (2 ^ 53 * 2 ^ (ex + 1074)).
  - apply Z.mul_lt_mono_pos_r; [apply Z.pow_pos_nonneg; lia | exact Hmx].
  - apply Z.le_trans with (2 ^ 52 * 2 ^ (ey + 1074)).
    + rewrite <- !Z.pow_add_r by lia. apply Z.pow_le_mono_r; lia.
    + apply Z.mul_le_mono_nonneg_r; [apply Z.pow_nonneg; lia | exact Hmy].
Qed.

Lemma pos_scaled_compare mx ex my ey :
  bounded prec emax mx ex = true -> bounded prec emax my ey = true ->
  match ex ?= ey with
  | Lt => Lt
  | Gt => Gt
  | Eq => Pos.compare_cont Eq mx my
  end = (Zpos mx * 2 ^ (ex + 1074) ?= Zpos my * 2 ^ (ey + 1074)).
Proof.
  intros Hx Hy. destruct (Z.compare_spec ex ey) as [-> | Hlt | Hgt].
  - pose proof (bounded_inv _ _ Hy) as (He & _).
    assert (0 < 2 ^ (ey + 1074)) by (apply Z.pow_pos_nonneg; lia).
    change (Pos.compare_cont Eq mx my) with (Zpos mx ?= Zpos my).
    symmetry. destruct (Z.compare_spec (Zpos mx) (Zpos my)) as [E | L | G].
    + rewrite E. apply Z.compare_refl.
    + apply Z.compare_lt_iff. nia.
    + apply Z.compare_gt_iff. nia.
  - symmetry. apply Z.compare_lt_iff. now apply pos_scaled_lt.
  - symmetry. apply Z.compare_gt_iff. apply pos_scaled_lt; assumption || lia.
Qed.

Lemma SFcompare_units x y :
  valid_binary x = true -> valid_binary y = true ->
  finiteSF x = true -> finiteSF y = true ->
  SFcompare x y = Some (units x ?= units y).
Proof.
  destruct x as [sx | sx | | sx mx ex], y as [sy | sy | | sy my ey];
    cbn [valid_binary finiteSF units]; intros Hx Hy Fx Fy; try discriminate.
  - reflexivity.
  - pose proof (bounded_inv _ _ Hy) as (He & _).
    assert (0 < 2 ^ (ey + 1074)) by (apply Z.pow_pos_nonneg; lia).
    cbn [SFcompare]. f_equal. symmetry.
    destruct sy; cbn [cond_Zopp];
      [apply Z.compare_gt_iff | apply Z.compare_lt_iff]; nia.
  - pose proof (bounded_inv _ _ Hx) as (He & _).
    assert (0 < 2 ^ (ex + 1074)) by (apply Z.pow_pos_nonneg; lia).
    cbn [SFcompare]. f_equal. symmetry.
    destruct sx; cbn [cond_Zopp];
      [apply Z.compare_lt_iff | apply Z.compare_gt_iff]; nia.
  - pose proof (bounded_inv _ _ Hx) as (Hex & _).
    pose proof (bounded_inv _ _ Hy) as (Hey & _).
    assert (0 < 2 ^ (ex + 1074)) by (apply Z.pow_pos_nonneg; lia).
    assert (0 < 2 ^ (ey + 1074)) by (apply Z.pow_pos_nonneg; lia).
    pose proof (pos_scaled_compare _ _ _ _ Hx Hy) as Hc.
    pose proof (pos_scaled_compare _ _ _ _ Hy Hx) as Hc'.
    cbn [SFcompare]. f_equal.
    destruct sx, sy; cbn [cond_Zopp].
    + rewrite Z.compare_opp. rewrite <- Hc'.
      rewrite (Z.compare_antisym ey ex).
      destruct (ey ?= ex); cbn; try reflexivity.
      exact (Pos.compare_cont_antisym mx my Eq).
    + symmetry. apply Z.compare_lt_iff. nia.
    + symmetry. apply Z.compare_gt_iff. nia.
    + exact Hc.
Qed.


(** *** Rounding keeps the sign *)

Lemma shr_1_m mrs : 0 <= shr_m mrs -> shr_m (shr_1 mrs) = shr_m mrs / 2.
Proof.
  destruct mrs as [m r s]. cbn [shr_m shr_1]. intros Hm.
  destruct m as [| [p | p |] | p]; cbn [shr_m]; try lia; try reflexivity.
  - apply Z.div_unique with 1; lia.
  - apply Z.div_unique with 0; lia.
Qed.

Lemma iter_shr_m p : forall mrs,
  0 <= shr_m mrs ->
  shr_m (SpecFloat.iter_pos shr_1 p mrs) = shr_m mrs / 2 ^ Zpos p.
Proof.
  assert (Hpow : forall q, 0 < 2 ^ Zpos q) by (intros; apply Z.pow_pos_nonneg; lia).
  induction p as [p IH | p IH |]; intros mrs Hm; cbn [SpecFloat.iter_pos].
  - assert (H1 : 0 <= shr_m (shr_1 mrs))
      by (rewrite shr_1_m by assumption; apply Z.div_pos; lia).
    assert (H2 : 0 <= shr_m (SpecFloat.iter_pos shr_1 p (shr_1 mrs)))
      by (rewrite IH by assumption; apply Z.div_pos; [lia | apply Hpow]).
    rewrite IH, IH, shr_1_m by assumption.
    rewrite !Z.div_div by (try apply Hpow; lia).
    f_equal.
    replace (Zpos p~1) with (1 + Zpos p + Zpos p) by lia.
    rewrite !Z.pow_add_r by lia. lia.
  - assert (H2 : 0 <= shr_m (SpecFloat.iter_pos shr_1 p mrs))
      by (rewrite IH by assumption; apply Z.div_pos; [lia | apply Hpow]).
    rewrite IH, IH by assumption.
    rewrite !Z.div_div by (try apply Hpow; lia).
    f_equal.
    replace (Zpos p~0) with (Zpos p + Zpos p) by lia.
    rewrite !Z.pow_add_r by lia. lia.
  - now rewrite shr_1_m.
Qed.

Lemma shr_record_of_loc_m m l : shr_m (shr_record_of_loc m l) = m.
Proof. destruct l as [| []]; reflexivity. Qed.

Lemma shr_fexp_pos m e l :
  -1074 <= e ->
  0 < shr_m (fst (shr_fexp prec emax (Zpos m) e l)) /\
  -1074 <= snd (shr_fexp prec emax (Zpos m) e l).
Proof.
  intros He. unfold shr_fexp, shr. rewrite fexp_eq. cbn [Zdigits2].
  pose proof (digits2_bounds m) as [Hlo _].
  set (d := Zpos (digits2_pos m)) in *.
  destruct (Z.max (d + e - 53) (-1074) - e) as [| p | p] eqn:En; cbn [fst snd].
  - rewrite shr_record_of_loc_m. lia.
  - split; [| lia].
    rewrite iter_shr_m by (rewrite shr_record_of_loc_m; lia).
    rewrite shr_record_of_loc_m.
    apply Z.div_str_pos. split; [apply Z.pow_pos_nonneg; lia |].
    apply Z.le_trans with (2 := Hlo). apply Z.pow_le_mono_r; lia.
  - rewrite shr_record_of_loc_m. lia.
Qed.

Lemma round_nearest_even_pos m l : 0 < m -> 0 < round_nearest_even m l.
Proof.
  intros Hm. destruct l as [| []]; cbn [round_nearest_even]; try lia.
  destruct (Z.even m); lia.
Qed.

Lemma binary_round_aux_sign s m e l :
  -1074 <= e ->
  signedNonzero s (binary_round_aux prec emax s (Zpos m) e l) = true.
Proof.
  intros He. unfold binary_round_aux.
  pose proof (shr_fexp_pos m e l He) as [H1 H2].
  destruct (shr_fexp prec emax (Zpos m) e l) as [mrs' e']. cbn [fst snd] in *.
  pose proof (round_nearest_even_pos _ (loc_of_shr_record mrs') H1) as H3.
  destruct (round_nearest_even (shr_m mrs') (loc_of_shr_record mrs'))
    as [| m2 | m2]; try lia.
  pose proof (shr_fexp_pos m2 e' loc_Exact H2) as [H4 _].
  destruct (shr_fexp prec emax (Zpos m2) e' loc_Exact) as [mrs'' e''].
  cbn [fst snd] in *.
  destruct (shr_m mrs'') as [| m3 | m3]; try lia.
  destruct (e'' <=? emax - prec); cbn; apply Bool.eqb_reflx.
Qed.

Lemma binary_round_sign s m e :
  -1074 <= e ->
  signedNonzero s (binary_round prec emax s m e) = true.
Proof.
  intros He. unfold binary_round, shl_align. rewrite fexp_eq.
  destruct (Z.max (Zpos (digits2_pos m) + e - 53) (-1074) - e);
    apply binary_round_aux_sign; lia.
Qed.

Lemma iter_xO m d : Zpos (Pos.iter xO m d) = Zpos m * 2 ^ Zpos d.
Proof.
  induction d as [| d IH] using Pos.peano_ind.
  - cbn. lia.
  - rewrite Pos.iter_succ, Pos2Z.inj_xO, IH, Pos2Z.inj_succ, Z.pow_succ_r by lia.
    lia.
Qed.

Lemma shl_align_fst m e e' :
  e' <= e -> Zpos (fst (shl_align m e e')) = Zpos m * 2 ^ (e - e').
Proof.
  intros Hle. unfold shl_align.
  destruct (e' - e) as [| p | p] eqn:E; cbn [fst]; try lia.
  - replace (e - e') with 0 by lia. cbn. lia.
  - rewrite iter_xO. f_equal. f_equal. lia.
Qed.

(** The sign of a difference of finite numbers is the sign of the exact
    difference. *)
Lemma SFsub_sign x y :
  valid_binary x = true -> valid_binary y = true ->
  finiteSF x = true -> finiteSF y = true ->
  SFltb (S754_zero false) (SFsub prec emax x y) = (units y <? units x).
Proof.
  destruct x as [sx | sx | | sx mx ex], y as [sy | sy | | sy my ey];
    cbn [valid_binary finiteSF units]; intros Hx Hy Fx Fy; try discriminate.
  - destruct sx, sy; reflexivity.
  - pose proof (bounded_inv _ _ Hy) as (He & _).
    assert (0 < 2 ^ (ey + 1074)) by (apply Z.pow_pos_nonneg; lia).
    cbn [SFsub]. unfold SFltb. cbn [SFcompare]. symmetry.
    destruct sy; cbn [negb cond_Zopp];
      [apply Z.ltb_lt | apply Z.ltb_ge]; nia.
  - pose proof (bounded_inv _ _ Hx) as (He & _).
    assert (0 < 2 ^ (ex + 1074)) by (apply Z.pow_pos_nonneg; lia).
    cbn [SFsub]. unfold SFltb. cbn [SFcompare]. symmetry.
    destruct sx; cbn [negb cond_Zopp];
      [apply Z.ltb_ge | apply Z.ltb_lt]; nia.
  - pose proof (bounded_inv _ _ Hx) as (Hex & _).
    pose proof (bounded_inv _ _ Hy) as (Hey & _).
    cbn [SFsub].
    set (ez := Z.min ex ey).
    rewrite !shl_align_fst by (unfold ez; lia).
    assert (Hez : -1074 <= ez) by (unfold ez; lia).
    assert (Hp : 0 < 2 ^ (ez + 1074)) by (apply Z.pow_pos_nonneg; lia).
    assert (Hux : Zpos mx * 2 ^ (ex + 1074)
                  = Zpos mx * 2 ^ (ex - ez) * 2 ^ (ez + 1074)).
    { rewrite <- Z.mul_assoc, <- Z.pow_add_r by (unfold ez; lia).
      do 2 f_equal. lia. }
    assert (Huy : Zpos my * 2 ^ (ey + 1074)
                  = Zpos my * 2 ^ (ey - ez) * 2 ^ (ez + 1074)).
    { rewrite <- Z.mul_assoc, <- Z.pow_add_r by (unfold ez; lia).
      do 2 f_equal. lia. }
    rewrite Hux, Huy.
    set (a := Zpos mx * 2 ^ (ex - ez)).
    set (b := Zpos my * 2 ^ (ey - ez)).
    assert (Hsign : cond_Zopp sx (a * 2 ^ (ez + 1074))
                    - cond_Zopp sy (b * 2 ^ (ez + 1074))
                    = (cond_Zopp sx a - cond_Zopp sy b) * 2 ^ (ez + 1074))
      by (destruct sx, sy; cbn [cond_Zopp]; lia).
    destruct (cond_Zopp sx a - cond_Zopp sy b) as [| M | M] eqn:EM;
      cbn [binary_normalize].
    + symmetry. apply Z.ltb_ge. lia.
    + pose proof (binary_round_sign false M ez Hez) as Hr.
      destruct (binary_round prec emax false M ez) as [? | [] | | [] ? ?];
        try discriminate; cbn; symmetry; apply Z.ltb_lt; nia.
    + pose proof (binary_round_sign true M ez Hez) as Hr.
      destruct (binary_round prec emax true M ez) as [? | [] | | [] ? ?];
        try discriminate; cbn; symmetry; apply Z.ltb_ge; nia.
Qed.


(** *** Primitive floats *)

Lemma Prim2SF_nan x : PrimFloat.is_nan x = false -> Prim2SF x <> S754_nan.
Proof.
  intros H. unfold Prim2SF. rewrite H.
  destruct (PrimFloat.is_zero x); [discriminate |].
  destruct (PrimFloat.is_infinity x); [discriminate |].
  destruct (Z.frexp x) as [r ex].
  destruct (shr_fexp _ _ _ _ _) as [mrs e'].
  destruct (shr_m mrs); discriminate.
Qed.

Lemma Prim2SF_finite x :
  PrimFloat.is_finite x = true -> finiteSF (Prim2SF x) = true.
Proof.
  unfold PrimFloat.is_finite, Prim2SF. intros H.
  apply negb_true_iff, orb_false_iff in H as [Hn Hi]. rewrite Hn, Hi.
  destruct (PrimFloat.is_zero x); [reflexivity |].
  destruct (Z.frexp x) as [r ex].
  destruct (shr_fexp _ _ _ _ _) as [mrs e'].
  destruct (shr_m mrs); reflexivity.
Qed.

Lemma is_finite_not_nan x :
  PrimFloat.is_finite x = true -> PrimFloat.is_nan x = false.
Proof.
  unfold PrimFloat.is_finite. intros H.
  now apply negb_true_iff, orb_false_iff in H as [Hn _].
Qed.

Lemma ltb_leb a b : PrimFloat.ltb a b = true -> PrimFloat.leb a b = true.
Proof.
  rewrite ltb_spec, leb_spec. unfold SFltb, SFleb.
  destruct (SFcompare (Prim2SF a) (Prim2SF b)) as [[] |]; congruence.
Qed.

Lemma SFcompare_some x y :
  x <> S754_nan -> y <> S754_nan -> exists c, SFcompare x y = Some c.
Proof.
  destruct x, y; cbn; intros; try congruence; eauto.
Qed.

Lemma not_ltb_leb a b :
  PrimFloat.is_nan a = false -> PrimFloat.is_nan b = false ->
  PrimFloat.ltb b a = false -> PrimFloat.leb a b = true.
Proof.
  intros Ha Hb. rewrite ltb_spec, leb_spec. unfold SFltb, SFleb.
  rewrite (SFcompare_antisym (Prim2SF a) (Prim2SF b)).
  destruct (SFcompare_some _ _ (Prim2SF_nan a Ha) (Prim2SF_nan b Hb))
    as [c ->].
  destruct c; cbn; congruence.
Qed.

Lemma leb_nan_l x : PrimFloat.leb PrimFloat.nan x = false.
Proof. rewrite leb_spec. reflexivity. Qed.

Lemma leb_nan_r x : PrimFloat.leb x PrimFloat.nan = false.
Proof.
  rewrite leb_spec. change (Prim2SF PrimFloat.nan) with S754_nan.
  unfold SFleb. now destruct (Prim2SF x).
Qed.

(** For finite [a] and [b], [a - b] is positive exactly when [b < a]. *)
Lemma sub_pos_iff_ltb a b :
  PrimFloat.is_finite a = true -> PrimFloat.is_finite b = true ->
  PrimFloat.ltb 0 (a - b) = PrimFloat.ltb b a.
Proof.
  intros Ha Hb. rewrite !ltb_spec, sub_spec.
  change (Prim2SF 0) with (S754_zero false).
  pose proof (Prim2SF_valid a) as Va. pose proof (Prim2SF_valid b) as Vb.
  apply Prim2SF_finite in Ha, Hb.
  unfold SF64sub. rewrite SFsub_sign by assumption.
  unfold SFltb. rewrite SFcompare_units by assumption.
  unfold Z.ltb. reflexivity.
Qed.

Lemma sub_infinity_l b :
  PrimFloat.is_finite b = true ->
  PrimFloat.ltb 0 (PrimFloat.infinity - b) = true.
Proof.
  intros Hb. rewrite ltb_spec, sub_spec. apply Prim2SF_finite in Hb.
  change (Prim2SF 0) with (S754_zero false).
  change (Prim2SF PrimFloat.infinity) with (S754_infinity false).
  now destruct (Prim2SF b).
Qed.

Lemma sub_infinity_r a :
  PrimFloat.is_finite a = true ->
  PrimFloat.ltb 0 (a - PrimFloat.infinity) = false.
Proof.
  intros Ha. rewrite ltb_spec, sub_spec. apply Prim2SF_finite in Ha.
  change (Prim2SF 0) with (S754_zero false).
  change (Prim2SF PrimFloat.infinity) with (S754_infinity false).
  now destruct (Prim2SF a).
Qed.

Lemma Prim2SF_is_nan x : PrimFloat.is_nan x = true -> Prim2SF x = S754_nan.
Proof. intros H. unfold Prim2SF. now rewrite H. Qed.

(** Every comparison with NaN is false. *)
Lemma leb_is_nan_l x y : PrimFloat.is_nan x = true -> PrimFloat.leb x y = false.
Proof. intros H. now rewrite leb_spec, (Prim2SF_is_nan x H). Qed.

Lemma leb_is_nan_r x y : PrimFloat.is_nan y = true -> PrimFloat.leb x y = false.
Proof.
  intros H. rewrite leb_spec, (Prim2SF_is_nan y H). unfold SFleb.
  now destruct (Prim2SF x).
Qed.

Lemma ltb_is_nan_l x y : PrimFloat.is_nan x = true -> PrimFloat.ltb x y = false.
Proof. intros H. now rewrite ltb_spec, (Prim2SF_is_nan x H). Qed.

Lemma ltb_is_nan_r x y : PrimFloat.is_nan y = true -> PrimFloat.ltb x y = false.
Proof.
  intros H. rewrite ltb_spec, (Prim2SF_is_nan y H). unfold SFltb.
  now destruct (Prim2SF x).
Qed.

(** Finite numbers are ordered as their values are. *)
Lemma leb_units a b :
  PrimFloat.is_finite a = true -> PrimFloat.is_finite b = true ->
  PrimFloat.leb a b = (units (Prim2SF a) <=? units (Prim2SF b)).
Proof.
  intros Ha Hb. rewrite leb_spec. unfold SFleb.
  rewrite SFcompare_units
    by (apply Prim2SF_valid || now apply Prim2SF_finite).
  unfold Z.leb. now destruct (units (Prim2SF a) ?= units (Prim2SF b)).
Qed.

Lemma leb_refl a : PrimFloat.is_finite a = true -> PrimFloat.leb a a = true.
Proof. intros Ha. rewrite leb_units by assumption. apply Z.leb_refl. Qed.

Lemma leb_trans a b c :
  PrimFloat.is_finite a = true -> PrimFloat.is_finite b = true ->
  PrimFloat.is_finite c = true ->
  PrimFloat.leb a b = true -> PrimFloat.leb b c = true ->
  PrimFloat.leb a c = true.
Proof.
  intros Ha Hb Hc. rewrite !leb_units by assumption.
  rewrite !Z.leb_le. lia.
Qed.

Lemma ltb_units a b :
  PrimFloat.is_finite a = true -> PrimFloat.is_finite b = true ->
  PrimFloat.ltb a b = (units (Prim2SF a) <? units (Prim2SF b)).
Proof.
  intros Ha Hb. rewrite ltb_spec. unfold SFltb.
  rewrite SFcompare_units
    by (apply Prim2SF_valid || now apply Prim2SF_finite).
  unfold Z.ltb. now destruct (units (Prim2SF a) ?= units (Prim2SF b)).
Qed.

Lemma is_nan_SF x :
  PrimFloat.is_nan x
  = match Prim2SF x with S754_nan => true | _ => false end.
Proof.
  destruct (PrimFloat.is_nan x) eqn:E.
  - now rewrite (Prim2SF_is_nan x E).
  - pose proof (Prim2SF_nan x E). now destruct (Prim2SF x).
Qed.

Lemma shr_fexp_nonneg m e l :
  0 <= m -> 0 <= shr_m (fst (shr_fexp prec emax m e l)).
Proof.
  intros Hm. unfold shr_fexp, shr.
  destruct (fexp prec emax (Zdigits2 m + e) - e) as [| p | p]; cbn [fst];
    try (rewrite shr_record_of_loc_m; exact Hm).
  rewrite iter_shr_m by (rewrite shr_record_of_loc_m; exact Hm).
  rewrite shr_record_of_loc_m. apply Z.div_pos; [exact Hm |].
  apply Z.pow_pos_nonneg; lia.
Qed.

Lemma round_nearest_even_nonneg m l : 0 <= m -> 0 <= round_nearest_even m l.
Proof.
  intros Hm. destruct l as [| []]; cbn [round_nearest_even]; try lia.
  destruct (Z.even m); lia.
Qed.

(** Rounding a product never gives NaN. *)
Lemma binary_round_aux_not_nan s m e l :
  binary_round_aux prec emax s (Zpos m) e l <> S754_nan.
Proof.
  unfold binary_round_aux.
  pose proof (shr_fexp_nonneg (Zpos m) e l ltac:(lia)) as H1.
  destruct (shr_fexp prec emax (Zpos m) e l) as [mrs' e']. cbn [fst] in H1.
  pose proof (round_nearest_even_nonneg _ (loc_of_shr_record mrs') H1) as H2.
  pose proof (shr_fexp_nonneg _ e' loc_Exact H2) as H3.
  destruct (shr_fexp prec emax _ e' loc_Exact) as [mrs'' e''].
  cbn [fst] in H3.
  destruct (shr_m mrs'') as [| m3 | m3]; try lia; try discriminate.
  destruct (e'' <=? emax - prec); discriminate.
Qed.

(** The radius in meters is NaN exactly when the radius in kilometres is. *)
Lemma mul_1000_is_nan r :
  PrimFloat.is_nan (r * 1000) = PrimFloat.is_nan r.
Proof.
  rewrite !is_nan_SF, mul_spec. unfold SF64mul.
  destruct (Prim2SF 1000) as [s | s | | s m e] eqn:E;
    try (vm_compute in E; discriminate).
  destruct (Prim2SF r) as [sr | sr | | sr mr er]; cbn [SFmul];
    try reflexivity.
  pose proof (binary_round_aux_not_nan (xorb sr s) (mr * m) (er + e)
                loc_Exact) as Hn.
  now destruct (binary_round_aux _ _ _ _ _ _).
Qed.

End F64Facts.

(** ** The hash *)

Lemma fold_seedStep l : forall h H,
  h = H mod 2 ^ 32 ->
  fold_left seedStep l h = fold_left polyStep l H mod 2 ^ 32.
Proof.
  induction l as [| c l IH]; intros h H Hh; cbn [fold_left].
  - exact Hh.
  - apply IH. unfold seedStep, polyStep, JS.toUint32. subst h.
    now rewrite <- Z.add_mod_idemp_l, Z.mul_mod_idemp_l, Z.add_mod_idemp_l.
Qed.

(** Wrapping at every step is wrapping once at the end. *)
Lemma seedNum_polyHash str : seedNum str = polyHash str.
Proof. unfold seedNum, polyHash. now apply fold_seedStep. Qed.

Lemma seedNum_range str : 0 <= seedNum str < 2 ^ 32.
Proof. rewrite seedNum_polyHash. unfold polyHash. now apply Z.mod_pos_bound. Qed.

Lemma charCode_range c : 0 <= JS.charCode c < 256.
Proof.
  unfold JS.charCode. pose proof (N_ascii_bounded c) as Hc. lia.
Qed.

(** The loop computes on binary64 numbers; every intermediate value is an
    integer below 2^53, where binary64 arithmetic is exact. *)
Lemma seedStep_exact h c :
  0 <= h < 2 ^ 32 -> 0 <= h * 31 + JS.charCode c < 2 ^ 53.
Proof. pose proof (charCode_range c). lia. Qed.

(** ** The synthesizer *)

Lemma priceTable_ok : forallb priceRow (zrange 40) = true.
Proof. vm_compute. reflexivity. Qed.

Lemma In_zrange n z : 0 <= z < Z.of_nat n -> In z (zrange n).
Proof.
  intros Hz. unfold zrange. apply in_map_iff. exists (Z.to_nat z).
  split; [lia | apply in_seq; lia].
Qed.

Lemma priceCheck_ok a b : 0 <= a < 40 -> 0 <= b < 200 -> priceCheck a b = true.
Proof.
  intros Ha Hb.
  pose proof (proj1 (forallb_forall priceRow (zrange 40)) priceTable_ok a
                (In_zrange 40 a Ha)) as Row.
  exact (proj1 (forallb_forall (priceCheck a) (zrange 200)) Row b
           (In_zrange 200 b Hb)).
Qed.

(** C1. For all identifiers the synthesized price is the number
    [10 + (hash(drugId) mod 40) + (hash(facilityId) mod 200) / 100] with its
    two decimals, [hash] being the polynomial hash with multiplier 31 modulo
    2^32, and lies in [10.00, 52.00). [simulatePrice] is a total function of
    its two arguments: equal inputs give equal prices and no input fails. *)
Theorem simulatePrice_spec (rxcui placeId : ident) :
  simulatePrice rxcui placeId = ofCents (specCents rxcui placeId)
  /\ PrimFloat.leb 10 (simulatePrice rxcui placeId) = true
  /\ PrimFloat.ltb (simulatePrice rxcui placeId) 52 = true.
Proof.
  unfold simulatePrice, specCents. rewrite !seedNum_polyHash.
  set (a := polyHash (String_ rxcui) mod 40).
  set (b := polyHash (String_ placeId) mod 200).
  assert (Ha : 0 <= a < 40) by (apply Z.mod_pos_bound; lia).
  assert (Hb : 0 <= b < 200) by (apply Z.mod_pos_bound; lia).
  pose proof (priceCheck_ok a b Ha Hb) as Hc. unfold priceCheck in Hc.
  apply andb_prop in Hc as [Hc Hlt]. apply andb_prop in Hc as [Heq Hle].
  apply FloatAxioms.Leibniz.eqb_spec in Heq. fold (priceFrom a b).
  now rewrite Heq in *.
Qed.

(** C8. The stock level of a facility is decided by
    [hash(facilityId) mod 100], a value of [0, 100): out of stock below 10,
    low stock from 10 and below 35, in stock from 35. *)
Theorem simulateStock_partition (placeId : ident) :
  0 <= stockResidue placeId < 100
  /\ (simulateStock placeId = "out_of_stock" <-> stockResidue placeId < 10)
  /\ (simulateStock placeId = "low_stock"
      <-> 10 <= stockResidue placeId < 35)
  /\ (simulateStock placeId = "in_stock" <-> 35 <= stockResidue placeId).
Proof.
  unfold simulateStock, stockResidue. rewrite seedNum_polyHash.
  set (v := polyHash (String_ placeId) mod 100).
  assert (Hv : 0 <= v < 100) by (apply Z.mod_pos_bound; lia).
  split; [exact Hv |].
  destruct (Z.ltb_spec v 10); [| destruct (Z.ltb_spec v 35)];
    repeat split; intros; try lia; try discriminate; reflexivity.
Qed.

(** ** Sorting with a comparator *)

Section Sort.

Context {A : Type} (cmp : A -> A -> float).

Lemma sortInsert_perm x l : Permutation (JS.sortInsert cmp x l) (x :: l).
Proof.
  induction l as [| y l IH]; cbn [JS.sortInsert].
  - reflexivity.
  - destruct (PrimFloat.ltb 0 (cmp x y)).
    + rewrite IH. apply perm_swap.
    + reflexivity.
Qed.

(** The sort rearranges its input and nothing else. *)
Lemma sort_perm l : Permutation (JS.sort cmp l) l.
Proof.
  induction l as [| x l IH]; cbn [JS.sort fold_right].
  - reflexivity.
  - fold (JS.sort cmp l). rewrite sortInsert_perm. now constructor.
Qed.

Context (le : A -> A -> Prop) (P : A -> Prop).

(** [P] holds of the elements sorted; on them the comparator decides [le]. *)
Hypothesis after_le : forall x y,
  P x -> P y -> PrimFloat.ltb 0 (cmp x y) = true -> le y x.
Hypothesis keep_le : forall x y,
  P x -> P y -> PrimFloat.ltb 0 (cmp x y) = false -> le x y.
Hypothesis le_trans : forall x y z,
  P x -> P y -> P z -> le x y -> le y z -> le x z.

Lemma sortInsert_sorted x l :
  P x -> Forall P l -> StronglySorted le l ->
  StronglySorted le (JS.sortInsert cmp x l).
Proof.
  intros Px Pl Hs. induction Hs as [| y l Hs IH Hy]; cbn [JS.sortInsert].
  - repeat constructor.
  - apply Forall_cons_iff in Pl as [Py Pl].
    destruct (PrimFloat.ltb 0 (cmp x y)) eqn:E.
    + constructor; [now apply IH |].
      apply (Permutation_Forall (Permutation_sym (sortInsert_perm x l))).
      constructor; [now apply after_le | exact Hy].
    + constructor; [now constructor |].
      assert (Hxy : le x y) by now apply keep_le.
      constructor; [exact Hxy |].
      rewrite Forall_forall in Hy, Pl |- *. intros z Hz.
      apply le_trans with y; auto.
Qed.

Lemma sort_sorted l : Forall P l -> StronglySorted le (JS.sort cmp l).
Proof.
  induction l as [| x l IH]; intros Pl; cbn [JS.sort fold_right].
  - constructor.
  - apply Forall_cons_iff in Pl as [Px Pl]. fold (JS.sort cmp l).
    apply sortInsert_sorted; [exact Px | | now apply IH].
    now apply (Permutation_Forall (Permutation_sym (sort_perm l))).
Qed.

End Sort.

(** ** The distance comparator *)

(** On usable distances the comparator is positive exactly when its first
    argument is not before its second in the distance order. *)
Lemma byDistance_sign a b :
  distOk (dist a) = true -> distOk (dist b) = true ->
  PrimFloat.ltb 0 (byDistance a b) = negb (distLe (dist a) (dist b)).
Proof.
  unfold byDistance, dist, distOk, distLe, orInfinity.
  destruct (distance_km (place a)) as [x |],
           (distance_km (place b)) as [y |]; intros Ha Hb.
  - rewrite F64Facts.sub_pos_iff_ltb, F64Facts.ltb_units,
      F64Facts.leb_units by assumption.
    now rewrite Z.leb_antisym, negb_involutive.
  - now rewrite F64Facts.sub_infinity_r.
  - now rewrite F64Facts.sub_infinity_l.
  - reflexivity.
Qed.

Lemma distLe_total a b :
  distOk a = true -> distOk b = true ->
  distLe a b = false -> distLe b a = true.
Proof.
  destruct a as [x |], b as [y |]; cbn; intros Ha Hb; try congruence.
  rewrite !F64Facts.leb_units by assumption.
  rewrite Z.leb_gt, Z.leb_le. lia.
Qed.

Lemma distLe_trans a b c :
  distOk a = true -> distOk b = true -> distOk c = true ->
  distLe a b = true -> distLe b c = true -> distLe a c = true.
Proof.
  destruct a as [x |], b as [y |], c as [z |]; cbn; try congruence.
  apply F64Facts.leb_trans.
Qed.

Lemma distLe_refl a : distOk a = true -> distLe a a = true.
Proof. destruct a as [x |]; cbn; [apply F64Facts.leb_refl | reflexivity]. Qed.

(** The distance sort orders usable distances by [DistLe]. *)
Lemma sort_byDistance l :
  forallb (fun i => distOk (dist i)) l = true ->
  StronglySorted DistLe (JS.sort byDistance l).
Proof.
  intros Hl. rewrite forallb_forall in Hl. apply List.Forall_forall in Hl.
  apply sort_sorted with (P := fun i => distOk (dist i) = true).
  - intros x y Hx Hy E. rewrite byDistance_sign in E by assumption.
    apply negb_true_iff in E. now apply distLe_total.
  - intros x y Hx Hy E. rewrite byDistance_sign in E by assumption.
    now apply negb_false_iff in E.
  - intros x y z. unfold DistLe. apply distLe_trans.
  - exact Hl.
Qed.

(** Whatever algorithm sorted it, a list in which no item stands before one
    that the comparator puts strictly before it is in the distance order. *)
Lemma comparator_sorted_DistLe l :
  forallb (fun i => distOk (dist i)) l = true ->
  StronglySorted (fun a b => PrimFloat.ltb 0 (byDistance a b) = false) l ->
  StronglySorted DistLe l.
Proof.
  intros Hl Hs. rewrite forallb_forall in Hl.
  induction Hs as [| a l Hs IH Ha]; constructor.
  - apply IH. intros x Hx. apply Hl. now right.
  - rewrite List.Forall_forall in Ha |- *. intros b Hb.
    specialize (Ha b Hb).
    rewrite byDistance_sign in Ha by (apply Hl; (now left) || (now right)).
    now apply negb_false_iff in Ha.
Qed.

(** ** The stages of the handler *)

Lemma applySort_perm sort l : Permutation (applySort sort l) l.
Proof.
  unfold applySort.
  repeat (match goal with |- context [if ?b then _ else _] => destruct b end);
    auto using sort_perm.
Qed.

Lemma filterStock_In stock l x : In x (filterStock stock l) -> In x l.
Proof.
  unfold filterStock. intros H.
  repeat (match type of H with context [if ?b then _ else _] => destruct b end);
    repeat (apply filter_In in H as [H _]); exact H.
Qed.

Lemma filterPrice_In lo hi l x :
  In x (filterPrice lo hi l) ->
  In x l
  /\ (forall b, lo = Some b -> PrimFloat.leb b (price_usd x) = true)
  /\ (forall b, hi = Some b -> PrimFloat.leb (price_usd x) b = true).
Proof.
  unfold filterPrice. intros H.
  destruct hi as [h |]; [apply filter_In in H as [H Hh] |];
    (destruct lo as [m |]; [apply filter_In in H as [H Hm] |]);
    repeat split; try assumption; intros b [= <-]; assumption.
Qed.

(** A successful answer is the sorted, filtered, enriched list of the
    pharmacies found, with its length as [total]. *)
Lemma search_ok up st q res :
  json (answer up st q) = ResultBody res ->
  exists d rx geo places st1 st2,
    rxnormLookup up st (JS.trim (JS.or_default (q_med q) "")) = (Return d, st1)
    /\ truthyId (rxcui d) = Some rx
    /\ geocodeText up st1 (JS.trim (JS.or_default (q_location q) ""))
       = (Return (Some geo), st2)
    /\ findPharmacies up (geo_lat geo) (geo_lon geo)
         (radiusMeters (radiusKmOf q)) = Return places
    /\ items res
       = applySort (JS.or_default (q_sort q) "distance")
           (filterStock (JS.or_default (q_stock q) "any")
              (filterPrice (boundOf (q_price_min q)) (boundOf (q_price_max q))
                 (enrich rx places)))
    /\ total res = length (items res)
    /\ status (answer up st q) = 200.
Proof.
  intros H. unfold answer, search in *.
  destruct (negb (JS.truthy (JS.trim (JS.or_default (q_med q) ""))));
    [discriminate |].
  destruct (negb (JS.truthy (JS.trim (JS.or_default (q_location q) ""))));
    [discriminate |].
  destruct (rxnormLookup up st _) as [[d | err] st1] eqn:E1; [| discriminate].
  destruct (truthyId (rxcui d)) as [rx |] eqn:E2; [| discriminate].
  destruct (geocodeText up st1 _) as [[[geo |] | err] st2] eqn:E3;
    [| discriminate | discriminate].
  destruct (findPharmacies up _ _ _) as [places | err] eqn:E4; [| discriminate].
  cbn [fst json status] in *. injection H as <-. cbn [items total].
  exists d, rx, geo, places, st1, st2. repeat split; assumption || reflexivity.
Qed.

(** ** Filters *)

Lemma items_In up st q res x :
  json (answer up st q) = ResultBody res -> In x (items res) ->
  exists rx places,
    In x (filterStock (JS.or_default (q_stock q) "any")
            (filterPrice (boundOf (q_price_min q)) (boundOf (q_price_max q))
               (enrich rx places))).
Proof.
  intros H Hx.
  destruct (search_ok up st q res H)
    as (d & rx & geo & places & st1 & st2 & _ & _ & _ & _ & Hi & _).
  exists rx, places. rewrite Hi in Hx.
  exact (Permutation_in x (applySort_perm _ _) Hx).
Qed.

(** C6. In a successful answer every item's price is at least the lower
    bound when [price_min] is given and at most the upper bound when
    [price_max] is given, and [total] is the number of items returned. *)
Theorem price_bounds_and_total up st q res :
  json (answer up st q) = ResultBody res ->
  (forall s, q_price_min q = Some s -> JS.truthy s = true ->
     Forall (fun i => PrimFloat.leb (JS.Number s) (price_usd i) = true)
            (items res))
  /\ (forall s, q_price_max q = Some s -> JS.truthy s = true ->
        Forall (fun i => PrimFloat.leb (price_usd i) (JS.Number s) = true)
               (items res))
  /\ total res = length (items res).
Proof.
  intros H. repeat split.
  - intros s Hs Ht. apply List.Forall_forall. intros x Hx.
    destruct (items_In up st q res x H Hx) as (rx & places & Hin).
    apply filterStock_In, filterPrice_In in Hin as (_ & Hlo & _).
    apply Hlo. unfold boundOf. now rewrite Hs, Ht.
  - intros s Hs Ht. apply List.Forall_forall. intros x Hx.
    destruct (items_In up st q res x H Hx) as (rx & places & Hin).
    apply filterStock_In, filterPrice_In in Hin as (_ & _ & Hhi).
    apply Hhi. unfold boundOf. now rewrite Hs, Ht.
  - now destruct (search_ok up st q res H)
      as (d & rx & geo & places & st1 & st2 & _ & _ & _ & _ & _ & Ht & _).
Qed.

Lemma price_bounds_and_total_witness :
  json (answer sampleUpstream empty_caches boundedQuery)
  = ResultBody (resultOf (answer sampleUpstream empty_caches boundedQuery))
  /\ Forall (fun i => PrimFloat.leb (JS.Number "26.5") (price_usd i) = true)
       (items (resultOf (answer sampleUpstream empty_caches boundedQuery)))
  /\ length (items (resultOf (answer sampleUpstream empty_caches boundedQuery)))
     = 1%nat.
Proof.
  assert (H : json (answer sampleUpstream empty_caches boundedQuery)
              = ResultBody
                  (resultOf (answer sampleUpstream empty_caches boundedQuery)))
    by (vm_compute; reflexivity).
  split; [exact H |].
  destruct (price_bounds_and_total sampleUpstream empty_caches boundedQuery
              _ H) as (Hlo & _ & _).
  split; [exact (Hlo "26.5" eq_refl eq_refl) | vm_compute; reflexivity].
Defined.

Lemma filterStock_availability stock l x :
  stock = "in_stock" \/ stock = "low_stock" ->
  In x (filterStock stock l) -> availability x = stock.
Proof.
  unfold filterStock. intros [-> | ->] H; cbn in H.
  - apply filter_In in H as [_ H]. now apply String.eqb_eq.
  - apply filter_In in H as [_ H]. now apply String.eqb_eq.
Qed.

Lemma filterStock_other stock l :
  stock <> "in_stock" -> stock <> "low_stock" -> filterStock stock l = l.
Proof.
  intros H1 H2. unfold filterStock.
  apply String.eqb_neq in H1, H2. now rewrite H1, H2.
Qed.

(** C7. With the stock filter [in_stock] or [low_stock] every returned item
    has exactly that availability; with any other value, [any] included, the
    answer is the sorted list of all the pharmacies that pass the price
    filter. *)
Theorem stock_filter up st q res :
  json (answer up st q) = ResultBody res ->
  (JS.or_default (q_stock q) "any" = "in_stock"
   \/ JS.or_default (q_stock q) "any" = "low_stock" ->
   Forall (fun i => availability i = JS.or_default (q_stock q) "any")
          (items res))
  /\ (JS.or_default (q_stock q) "any" <> "in_stock" ->
      JS.or_default (q_stock q) "any" <> "low_stock" ->
      exists rx geo places,
        findPharmacies up (geo_lat geo) (geo_lon geo)
          (radiusMeters (radiusKmOf q)) = Return places
        /\ items res
           = applySort (JS.or_default (q_sort q) "distance")
               (filterPrice (boundOf (q_price_min q))
                  (boundOf (q_price_max q)) (enrich rx places))).
Proof.
  intros H. split.
  - intros Hs. apply List.Forall_forall. intros x Hx.
    destruct (items_In up st q res x H Hx) as (rx & places & Hin).
    exact (filterStock_availability _ _ _ Hs Hin).
  - intros H1 H2.
    destruct (search_ok up st q res H)
      as (d & rx & geo & places & st1 & st2 & _ & _ & _ & Hp & Hi & _).
    exists rx, geo, places. split; [exact Hp |].
    now rewrite filterStock_other in Hi.
Qed.

Lemma stock_filter_witness :
  json (answer sampleUpstream empty_caches inStockQuery)
  = ResultBody (resultOf (answer sampleUpstream empty_caches inStockQuery))
  /\ Forall (fun i => availability i = "in_stock")
       (items (resultOf (answer sampleUpstream empty_caches inStockQuery)))
  /\ length (items (resultOf (answer sampleUpstream empty_caches inStockQuery)))
     = 2%nat.
Proof.
  assert (H : json (answer sampleUpstream empty_caches inStockQuery)
              = ResultBody
                  (resultOf (answer sampleUpstream empty_caches inStockQuery)))
    by (vm_compute; reflexivity).
  split; [exact H |].
  destruct (stock_filter sampleUpstream empty_caches inStockQuery _ H)
    as (Hin & _).
  split; [exact (Hin (or_introl eq_refl)) | vm_compute; reflexivity].
Defined.

(** ** Malformed price bounds *)

Lemma filter_none {A} (f : A -> bool) l :
  (forall x, f x = false) -> List.filter f l = [].
Proof.
  intros Hf. induction l as [| x l IH]; cbn; [| rewrite Hf]; auto.
Qed.

Lemma filterPrice_nan lo hi l :
  (exists b, (lo = Some b \/ hi = Some b) /\ PrimFloat.is_nan b = true) ->
  filterPrice lo hi l = [].
Proof.
  intros (b & [-> | ->] & Hb); unfold filterPrice.
  - rewrite (filter_none (fun i => PrimFloat.leb b (price_usd i)))
      by (intros; now apply F64Facts.leb_is_nan_l).
    now destruct hi.
  - apply filter_none. intros. now apply F64Facts.leb_is_nan_r.
Qed.

(** The price bounds have no part in the status of the answer. *)
Lemma status_withoutBounds up st q :
  status (answer up st q) = status (answer up st (withoutBounds q)).
Proof.
  unfold answer, search. cbn [withoutBounds q_med q_location q_radius_km
    q_price_min q_price_max q_stock q_sort].
  destruct (negb (JS.truthy (JS.trim (JS.or_default (q_med q) ""))));
    [reflexivity |].
  destruct (negb (JS.truthy (JS.trim (JS.or_default (q_location q) ""))));
    [reflexivity |].
  destruct (rxnormLookup up st _) as [[d | err] st1]; [| reflexivity].
  destruct (truthyId (rxcui d)) as [rx |]; [| reflexivity].
  destruct (geocodeText up st1 _) as [[[geo |] | err] st2]; try reflexivity.
  unfold radiusKmOf. cbn [q_radius_km].
  destruct (findPharmacies up _ _ _) as [places | err]; reflexivity.
Qed.

(** ** Failures *)

Lemma rxnormLookup_throws up st med err st' :
  rxnormLookup up st med = (Throw err, st') ->
  exists e, err = upstreamError "RxNorm lookup failed" e.
Proof.
  unfold rxnormLookup.
  destruct (cache_rxnorm st !! _); [discriminate |].
  destruct (rxnav_drugs up med) as [data | e]; [| intros [= <- _]; eauto].
  destruct (findBest _ _); [discriminate |].
  destruct (rxnav_spelling up med) as [sg | e]; [discriminate |].
  intros [= <- _]; eauto.
Qed.

Lemma geocodeText_throws up st text err st' :
  geocodeText up st text = (Throw err, st') ->
  exists e, err = upstreamError "Geocoding failed" e.
Proof.
  unfold geocodeText.
  destruct (cache_geocode st !! _); [discriminate |].
  destruct (keyConfigured up).
  - destruct (geoapify_geocode up text) as [[| feat feats] | e];
      try discriminate. intros [= <- _]; eauto.
  - destruct (nominatim_search up text) as [[| [la lo] rest] | e];
      try discriminate. intros [= <- _]; eauto.
Qed.

Lemma findPharmacies_throws up la lo r err :
  findPharmacies up la lo r = Throw err ->
  exists e, err = upstreamError "Pharmacy search failed" e.
Proof.
  unfold findPharmacies.
  destruct (if keyConfigured up then _ else _) as [places | e];
    [discriminate | intros [= <-]; eauto].
Qed.

(** An error built by [upstreamError] has no [response] of its own: the
    handler answers 502 with the message. *)
Lemma failure_upstreamError msg e :
  JS.truthy msg = true ->
  failure (upstreamError msg e)
  = {| status := 502;
       json := DetailsBody {| det_status := 502; det_error := msg;
                              det_data := None |} |}.
Proof.
  intros Hm. unfold failure, extractError, upstreamError. cbn.
  now rewrite Hm.
Qed.

(** The six ways a request ends. *)
Lemma search_cases up st q :
  (JS.truthy (JS.trim (JS.or_default (q_med q) "")) = false
   /\ answer up st q
      = {| status := 400; json := ErrorBody "Missing parameter: med" |})
  \/ (JS.truthy (JS.trim (JS.or_default (q_med q) "")) = true
      /\ JS.truthy (JS.trim (JS.or_default (q_location q) "")) = false
      /\ answer up st q
         = {| status := 400; json := ErrorBody "Missing parameter: location" |})
  \/ (JS.truthy (JS.trim (JS.or_default (q_med q) "")) = true
      /\ JS.truthy (JS.trim (JS.or_default (q_location q) "")) = true
      /\ exists d st1,
           rxnormLookup up st (JS.trim (JS.or_default (q_med q) ""))
           = (Return d, st1)
           /\ truthyId (rxcui d) = None
           /\ answer up st q
              = {| status := 400;
                   json := InvalidMedicineBody "Invalid medicine name"
                             (suggestions d) |})
  \/ (JS.truthy (JS.trim (JS.or_default (q_med q) "")) = true
      /\ JS.truthy (JS.trim (JS.or_default (q_location q) "")) = true
      /\ (exists d st1 st2,
            rxnormLookup up st (JS.trim (JS.or_default (q_med q) ""))
            = (Return d, st1)
            /\ geocodeText up st1 (JS.trim (JS.or_default (q_location q) ""))
               = (Return None, st2))
      /\ answer up st q
         = {| status := 404; json := ErrorBody "Location not found" |})
  \/ (JS.truthy (JS.trim (JS.or_default (q_med q) "")) = true
      /\ JS.truthy (JS.trim (JS.or_default (q_location q) "")) = true
      /\ exists msg,
           In msg upstreamMessages
           /\ answer up st q
              = {| status := 502;
                   json := DetailsBody {| det_status := 502; det_error := msg;
                                          det_data := None |} |})
  \/ (JS.truthy (JS.trim (JS.or_default (q_med q) "")) = true
      /\ JS.truthy (JS.trim (JS.or_default (q_location q) "")) = true
      /\ exists res,
           answer up st q = {| status := 200; json := ResultBody res |}).
Proof.
  unfold answer, search, upstreamMessages.
  destruct (JS.truthy (JS.trim (JS.or_default (q_med q) ""))); cbn [negb];
    [| now left].
  destruct (JS.truthy (JS.trim (JS.or_default (q_location q) "")));
    cbn [negb]; [| right; now left].
  destruct (rxnormLookup up st _) as [[d | err] st1] eqn:E1.
  2: { apply rxnormLookup_throws in E1 as [e ->].
       do 4 right; left. repeat split. eexists. split; [| cbn [fst];
         now apply failure_upstreamError]. cbn; auto. }
  destruct (truthyId (rxcui d)) as [rx |] eqn:E2.
  2: { do 2 right; left. repeat split. now exists d, st1. }
  destruct (geocodeText up st1 _) as [[[geo |] | err] st2] eqn:E3.
  2: { do 3 right; left. repeat split. now exists d, st1, st2. }
  2: { apply geocodeText_throws in E3 as [e ->].
       do 4 right; left. repeat split. eexists. split; [| cbn [fst];
         now apply failure_upstreamError]. cbn; auto. }
  destruct (findPharmacies up _ _ _) as [places | err] eqn:E4.
  2: { apply findPharmacies_throws in E4 as [e ->].
       do 4 right; left. repeat split. eexists. split; [| cbn [fst];
         now apply failure_upstreamError]. cbn; auto. }
  do 5 right. repeat split. eexists. reflexivity.
Qed.

Lemma status_200 up st q :
  status (answer up st q) = 200 ->
  exists res, json (answer up st q) = ResultBody res.
Proof.
  destruct (search_cases up st q)
    as [(_ & E) | [(_ & _ & E) | [(_ & _ & d & st1 & _ & _ & E)
       | [(_ & _ & _ & E) | [(_ & _ & msg & _ & E) | (_ & _ & res & E)]]]]];
    rewrite E; cbn; try discriminate.
  intros _. now exists res.
Qed.

(** What each stage of a request that has its two parameters leads to. *)
Lemma search_stages up st q r st1 :
  medOf q <> "" -> locationOf q <> "" ->
  rxnormLookup up st (medOf q) = (r, st1) ->
  (forall e, r = Throw e ->
     endsWith (answer up st q) UpstreamFailure
       (upstreamDetails "RxNorm lookup failed"))
  /\ (forall d, r = Return d -> truthyId (rxcui d) = None ->
        endsWith (answer up st q) InvalidMedicine
          (InvalidMedicineBody "Invalid medicine name" (suggestions d)))
  /\ (forall d rx g st2,
        r = Return d -> truthyId (rxcui d) = Some rx ->
        geocodeText up st1 (locationOf q) = (g, st2) ->
        (forall e, g = Throw e ->
           endsWith (answer up st q) UpstreamFailure
             (upstreamDetails "Geocoding failed"))
        /\ (g = Return None ->
            endsWith (answer up st q) LocationNotFound
              (ErrorBody "Location not found"))
        /\ (forall geo, g = Return (Some geo) ->
              (forall e,
                 findPharmacies up (geo_lat geo) (geo_lon geo)
                   (radiusMeters (radiusKmOf q)) = Throw e ->
                 endsWith (answer up st q) UpstreamFailure
                   (upstreamDetails "Pharmacy search failed"))
              /\ (forall places,
                    findPharmacies up (geo_lat geo) (geo_lon geo)
                      (radiusMeters (radiusKmOf q)) = Return places ->
                    kindOf (answer up st q) = None
                    /\ status (answer up st q) = 200))).
Proof.
  assert (T : forall s, s <> "" -> JS.truthy s = true)
    by (intros [| c s]; cbn; congruence).
  unfold medOf, locationOf. intros Hm Hl E1.
  assert (A : answer up st q
              = fst match r with
                    | Throw err => (failure err, st1)
                    | Return d =>
                        match truthyId (rxcui d) with
                        | None =>
                            ({| status := 400;
                                json := InvalidMedicineBody
                                          "Invalid medicine name"
                                          (suggestions d) |}, st1)
                        | Some rx => search up st q
                        end
                    end).
  { unfold answer, search at 1. rewrite (T _ Hm), (T _ Hl). cbn [negb].
    rewrite E1. destruct r as [d | err]; [| reflexivity].
    destruct (truthyId (rxcui d)) eqn:E2; [| reflexivity].
    unfold search. rewrite (T _ Hm), (T _ Hl). cbn [negb].
    now rewrite E1, E2. }
  split; [| split].
  - intros e ->. rewrite A. cbn [fst].
    apply rxnormLookup_throws in E1 as [e0 ->].
    rewrite failure_upstreamError by reflexivity. now repeat split.
  - intros d -> E2. rewrite A, E2. now repeat split.
  - intros d rx g st2 -> E2 E3.
    assert (B : answer up st q
                = fst match g with
                      | Throw err => (failure err, st2)
                      | Return None =>
                          ({| status := 404;
                              json := ErrorBody "Location not found" |}, st2)
                      | Return (Some geo) =>
                          match findPharmacies up (geo_lat geo) (geo_lon geo)
                                  (radiusMeters (radiusKmOf q)) with
                          | Throw err => (failure err, st2)
                          | Return places => search up st q
                          end
                      end).
    { unfold answer, search at 1. rewrite (T _ Hm), (T _ Hl). cbn [negb].
      rewrite E1, E2, E3. destruct g as [[geo |] | err]; try reflexivity.
      destruct (findPharmacies up _ _ _) eqn:E4; [| reflexivity].
      unfold search. rewrite (T _ Hm), (T _ Hl). cbn [negb].
      now rewrite E1, E2, E3, E4. }
    split; [| split].
    + intros e ->. rewrite B. cbn [fst].
      apply geocodeText_throws in E3 as [e0 ->].
      rewrite failure_upstreamError by reflexivity. now repeat split.
    + intros ->. rewrite B. now repeat split.
    + intros geo ->. split.
      * intros e E4. rewrite B, E4. cbn [fst].
        apply findPharmacies_throws in E4 as [e0 ->].
        rewrite failure_upstreamError by reflexivity. now repeat split.
      * intros places E4. unfold answer, search.
        rewrite (T _ Hm), (T _ Hl). cbn [negb].
        rewrite E1, E2, E3, E4. now split.
Qed.

(** C9. A request ends with a full result and status 200, or with exactly
    one kind of error, by its cause: 400 for a missing parameter ([med] or
    [location] empty once trimmed); 400 with the resolver's suggestions for
    an invalid medicine, when the resolver returns no identifier; 404 for a
    location not found, when the geocoder returns none; 502 with the message
    of the stage for an upstream failure, when the resolver, the geocoder or
    Facility Search throws; and 200 when the three of them return. *)
Theorem search_error_codes up st q :
  match kindOf (answer up st q) with
  | Some k => status (answer up st q) = codeOf k
  | None =>
      status (answer up st q) = 200
      /\ exists res, json (answer up st q) = ResultBody res
  end
  /\ (kindOf (answer up st q) = Some MissingParameter
      <-> medOf q = "" \/ locationOf q = "")
  /\ (medOf q = "" ->
      endsWith (answer up st q) MissingParameter
        (ErrorBody "Missing parameter: med"))
  /\ (medOf q <> "" -> locationOf q = "" ->
      endsWith (answer up st q) MissingParameter
        (ErrorBody "Missing parameter: location"))
  /\ (medOf q <> "" -> locationOf q <> "" ->
      forall r st1,
        rxnormLookup up st (medOf q) = (r, st1) ->
        (forall e, r = Throw e ->
           endsWith (answer up st q) UpstreamFailure
             (upstreamDetails "RxNorm lookup failed"))
        /\ (forall d, r = Return d -> truthyId (rxcui d) = None ->
              endsWith (answer up st q) InvalidMedicine
                (InvalidMedicineBody "Invalid medicine name" (suggestions d)))
        /\ (forall d rx g st2,
              r = Return d -> truthyId (rxcui d) = Some rx ->
              geocodeText up st1 (locationOf q) = (g, st2) ->
              (forall e, g = Throw e ->
                 endsWith (answer up st q) UpstreamFailure
                   (upstreamDetails "Geocoding failed"))
              /\ (g = Return None ->
                  endsWith (answer up st q) LocationNotFound
                    (ErrorBody "Location not found"))
              /\ (forall geo, g = Return (Some geo) ->
                    (forall e,
                       findPharmacies up (geo_lat geo) (geo_lon geo)
                         (radiusMeters (radiusKmOf q)) = Throw e ->
                       endsWith (answer up st q) UpstreamFailure
                         (upstreamDetails "Pharmacy search failed"))
                    /\ (forall places,
                          findPharmacies up (geo_lat geo) (geo_lon geo)
                            (radiusMeters (radiusKmOf q)) = Return places ->
                          kindOf (answer up st q) = None
                          /\ status (answer up st q) = 200)))).
Proof.
  assert (T : forall s, JS.truthy s = false <-> s = "")
    by (intros [| c s]; cbn; split; congruence).
  assert (T' : forall s, JS.truthy s = true -> s <> "")
    by (intros [| c s]; cbn; congruence).
  unfold medOf at 1 2 3, locationOf at 1 2.
  split; [| split; [| split; [| split]]].
  5: { intros Hm Hl r st1. now apply search_stages. }
  all: destruct (search_cases up st q)
    as [(Hm & E) | [(Hm & Hl & E) | [(Hm & Hl & d & st1 & E1 & E2 & E)
       | [(Hm & Hl & Hgeo & E) | [(Hm & Hl & msg & Hin & E)
       | (Hm & Hl & res & E)]]]]];
    rewrite E; cbn.
  all: repeat match goal with
       | H : JS.truthy _ = false |- _ => apply T in H
       | H : JS.truthy _ = true |- _ => apply T' in H
       end.
  all: try reflexivity.
  all: try solve [split; [intros _; auto | reflexivity]].
  all: try solve [split; [discriminate | intros [? | ?]; congruence]].
  all: try solve [intros; congruence].
  all: try solve [intros; now repeat split].
  - split; [reflexivity | now exists res].
Qed.

(** C10. When [price_min] or [price_max] is a non-empty string that is not
    a number, the bound is NaN and no item passes it: the request ends as it
    would without the bound, and when that is a success the answer has no
    items and [total] 0. *)
Theorem malformed_bound_filters_all up st q s :
  q_price_min q = Some s \/ q_price_max q = Some s ->
  JS.truthy s = true ->
  PrimFloat.is_nan (JS.Number s) = true ->
  (boundOf (q_price_min q) = Some (JS.Number s)
   \/ boundOf (q_price_max q) = Some (JS.Number s))
  /\ status (answer up st q) = status (answer up st (withoutBounds q))
  /\ (status (answer up st (withoutBounds q)) = 200 ->
      exists res,
        json (answer up st q) = ResultBody res
        /\ items res = [] /\ total res = 0%nat).
Proof.
  intros Hq Ht Hn.
  assert (Hb : boundOf (q_price_min q) = Some (JS.Number s)
               \/ boundOf (q_price_max q) = Some (JS.Number s))
    by (unfold boundOf; destruct Hq as [-> | ->]; rewrite Ht; auto).
  split; [exact Hb |]. split; [apply status_withoutBounds |].
  rewrite <- status_withoutBounds. intros Hs.
  destruct (status_200 up st q Hs) as [res E]. exists res.
  split; [exact E |].
  destruct (search_ok up st q res E)
    as (d & rx & geo & places & st1 & st2 & _ & _ & _ & _ & Hi & Hlen & _).
  rewrite filterPrice_nan in Hi.
  - assert (Hnil : items res = []).
    { rewrite Hi. unfold filterStock, applySort.
      repeat (match goal with
              | |- context [if ?b then _ else _] => destruct b
              end); reflexivity. }
    now rewrite Hlen, Hnil.
  - exists (JS.Number s). split; [| exact Hn].
    destruct Hb as [-> | ->]; auto.
Qed.

Lemma malformed_bound_filters_all_witness :
  status (answer sampleUpstream empty_caches malformedQuery) = 200
  /\ exists res,
       json (answer sampleUpstream empty_caches malformedQuery) = ResultBody res
       /\ items res = [] /\ total res = 0%nat.
Proof.
  destruct (malformed_bound_filters_all sampleUpstream empty_caches
              malformedQuery "abc" (or_introl eq_refl) eq_refl eq_refl)
    as (_ & Hst & Hres).
  split; [vm_compute; reflexivity |].
  apply Hres. vm_compute. reflexivity.
Defined.

(** ** The sort *)

Lemma applySort_distance l : applySort "distance" l = JS.sort byDistance l.
Proof. reflexivity. Qed.

Lemma applySort_other sort l :
  sort <> "price_asc" -> sort <> "price_desc" -> sort <> "distance" ->
  applySort sort l = l.
Proof.
  intros H1 H2 H3. unfold applySort.
  apply String.eqb_neq in H1, H2, H3. now rewrite H1, H2, H3.
Qed.

Lemma StronglySorted_ascendingDist l :
  StronglySorted DistLe l -> ascendingDist l = true.
Proof.
  induction 1 as [| a l Hs IH Ha]; [reflexivity |].
  destruct l as [| b l]; [reflexivity |].
  cbn [ascendingDist] in *. rewrite IH.
  apply Forall_cons_iff in Ha as [Hab _]. unfold DistLe in Hab.
  now rewrite Hab.
Qed.


(** A successful answer to a distance sort is in the distance order. *)
Lemma distance_sorted up st q res :
  json (answer up st q) = ResultBody res ->
  JS.or_default (q_sort q) "distance" = "distance" ->
  forallb (fun i => distOk (dist i)) (items res) = true ->
  StronglySorted DistLe (items res).
Proof.
  intros H Hsort Hok.
  destruct (search_ok up st q res H)
    as (d & rx & geo & places & st1 & st2 & _ & _ & _ & _ & Hi & _).
  rewrite Hsort, applySort_distance in Hi. rewrite Hi.
  apply sort_byDistance.
  rewrite forallb_forall in Hok |- *. intros x Hx. apply Hok.
  rewrite Hi. exact (Permutation_in x (Permutation_sym (sort_perm _ _)) Hx).
Qed.

(** C2, as the handler has it. When [sort] is [distance], or is missing or
    empty so that the default applies, and every returned item has a
    distance that is absent or a finite number, the items are in the
    distance order: ascending distance, the items without a distance last.
    For any other value that is neither [price_asc] nor [price_desc] nothing
    is sorted: the items are the filtered pharmacies in the order in which
    Facility Search returned them. *)
Theorem sort_distance_or_untouched up st q res :
  json (answer up st q) = ResultBody res ->
  (JS.or_default (q_sort q) "distance" = "distance" ->
   forallb (fun i => distOk (dist i)) (items res) = true ->
   StronglySorted DistLe (items res))
  /\ (JS.or_default (q_sort q) "distance" <> "price_asc" ->
      JS.or_default (q_sort q) "distance" <> "price_desc" ->
      JS.or_default (q_sort q) "distance" <> "distance" ->
      exists rx geo places,
        findPharmacies up (geo_lat geo) (geo_lon geo)
          (radiusMeters (radiusKmOf q)) = Return places
        /\ items res
           = filterStock (JS.or_default (q_stock q) "any")
               (filterPrice (boundOf (q_price_min q))
                  (boundOf (q_price_max q)) (enrich rx places))).
Proof.
  intros H. split.
  - intros Hsort Hok. now apply distance_sorted with up st q.
  - intros H1 H2 H3.
    destruct (search_ok up st q res H)
      as (d & rx & geo & places & st1 & st2 & _ & _ & _ & Hp & Hi & _).
    exists rx, geo, places. split; [exact Hp |].
    now rewrite applySort_other in Hi.
Qed.

Lemma sort_distance_or_untouched_witness :
  json (answer sampleUpstream empty_caches defaultQuery)
  = ResultBody (resultOf (answer sampleUpstream empty_caches defaultQuery))
  /\ StronglySorted DistLe
       (items (resultOf (answer sampleUpstream empty_caches defaultQuery)))
  /\ map dist
       (items (resultOf (answer sampleUpstream empty_caches defaultQuery)))
     = [Some 1%float; Some 5%float; None].
Proof.
  assert (H : json (answer sampleUpstream empty_caches defaultQuery)
              = ResultBody
                  (resultOf (answer sampleUpstream empty_caches defaultQuery)))
    by (vm_compute; reflexivity).
  split; [exact H |].
  destruct (sort_distance_or_untouched sampleUpstream empty_caches
              defaultQuery _ H) as (Hs & _).
  split; [apply (Hs eq_refl); vm_compute; reflexivity
         | vm_compute; reflexivity].
Defined.

(** C2, as the specification has it, fails: a value of [sort] that the
    handler does not know leaves the items as Facility Search returned them,
    here 5 km, no distance, 1 km. *)
Lemma unrecognized_sort_not_sorted :
  q_sort nearestQuery = Some "nearest"
  /\ status (answer sampleUpstream empty_caches nearestQuery) = 200
  /\ map dist (itemsOf (answer sampleUpstream empty_caches nearestQuery))
     = [Some 5%float; None; Some 1%float]
  /\ forallb (fun i => distOk (dist i))
       (itemsOf (answer sampleUpstream empty_caches nearestQuery)) = true
  /\ ~ StronglySorted DistLe
         (itemsOf (answer sampleUpstream empty_caches nearestQuery)).
Proof.
  repeat split; try (vm_compute; reflexivity).
  intros Hs. apply StronglySorted_ascendingDist in Hs.
  vm_compute in Hs. discriminate.
Qed.




(** ** The medicine resolver *)

Lemma scanProps_complete key props : forall best b,
  forallb completeProperty props = true ->
  (forall b', best = Some b' -> completeProperty b' = true) ->
  scanProps key props best = Some b -> completeProperty b = true.
Proof.
  induction props as [| p props IH]; intros best b Hp Hbest; cbn [scanProps].
  - apply Hbest.
  - cbn [forallb] in Hp. apply andb_prop in Hp as [Hp Hps].
    destruct (String.eqb _ key).
    + now intros [= <-].
    + apply IH; [exact Hps |].
      destruct best as [b0 |]; [exact Hbest | now intros b' [= <-]].
Qed.

Lemma findBest_complete key groups b :
  completeGroups groups = true ->
  findBest key groups = Some b -> completeProperty b = true.
Proof.
  unfold findBest, completeGroups.
  assert (G : forall best,
             (forall b', best = Some b' -> completeProperty b' = true) ->
             forallb (fun g => forallb completeProperty
                                 (default [] (conceptProperties g))) groups
             = true ->
             fold_left (fun best g =>
                          scanProps key (default [] (conceptProperties g)) best)
                       groups best = Some b ->
             completeProperty b = true).
  { induction groups as [| g groups IH]; intros best Hbest Hg;
      cbn [fold_left].
    - apply Hbest.
    - cbn [forallb] in Hg. apply andb_prop in Hg as [Hg Hgs].
      apply IH; [| exact Hgs].
      intros b'. now apply scanProps_complete. }
  intros Hg. apply G; [discriminate | exact Hg].
Qed.

Lemma drugOk_unresolved sg :
  drugOk {| rxcui := None; drug_name := None; suggestions := sg |}.
Proof.
  split; cbn.
  - split; intros [x Hx]; discriminate.
  - intros [x Hx]; discriminate.
Qed.

Lemma drugOk_best b :
  completeProperty b = true ->
  drugOk {| rxcui := cp_rxcui b; drug_name := cp_name b; suggestions := [] |}.
Proof.
  unfold completeProperty. destruct (cp_rxcui b), (cp_name b);
    try discriminate.
  intros _. split; cbn; [split; eauto | reflexivity].
Qed.

(** The resolver returns, and caches, well-formed resolutions only. *)
Lemma rxnormLookup_ok up st med :
  completeProvider up ->
  map_Forall (fun _ => drugOk) (cache_rxnorm st) ->
  map_Forall (fun _ => drugOk) (cache_rxnorm (snd (rxnormLookup up st med)))
  /\ forall d, fst (rxnormLookup up st med) = Return d -> drugOk d.
Proof.
  intros Hup Hst. unfold rxnormLookup.
  destruct (cache_rxnorm st !! _) as [payload |] eqn:Ec; cbn [fst snd].
  - split; [exact Hst |]. intros d [= <-]. exact (Hst _ _ Ec).
  - destruct (rxnav_drugs up med) as [data | e] eqn:Ed; cbn [fst snd];
      [| split; [exact Hst | discriminate]].
    destruct (findBest _ (default [] data)) as [best |] eqn:Eb.
    + assert (Hb : completeProperty best = true).
      { destruct data as [groups |]; [| discriminate].
        exact (findBest_complete _ _ _ (Hup _ _ Ed) Eb). }
      cbn [fst snd cache_rxnorm]. split.
      * apply map_Forall_insert_2; [now apply drugOk_best | exact Hst].
      * intros d [= <-]. now apply drugOk_best.
    + destruct (rxnav_spelling up med) as [sg | e]; cbn [fst snd cache_rxnorm];
        [| split; [exact Hst | discriminate]].
      split.
      * apply map_Forall_insert_2; [apply drugOk_unresolved | exact Hst].
      * intros d [= <-]. apply drugOk_unresolved.
Qed.

Lemma geocodeText_cache_rxnorm up st text :
  cache_rxnorm (snd (geocodeText up st text)) = cache_rxnorm st.
Proof.
  unfold geocodeText.
  destruct (cache_geocode st !! _); [reflexivity |].
  destruct (keyConfigured up).
  - now destruct (geoapify_geocode up text) as [[| feat feats] | e].
  - now destruct (nominatim_search up text) as [[| [la lo] rest] | e].
Qed.

(** A request leaves the drug cache as the resolver left it. *)
Lemma search_cache_rxnorm up st q :
  cache_rxnorm (snd (search up st q)) = cache_rxnorm st
  \/ cache_rxnorm (snd (search up st q))
     = cache_rxnorm
         (snd (rxnormLookup up st (JS.trim (JS.or_default (q_med q) "")))).
Proof.
  unfold search.
  destruct (negb (JS.truthy (JS.trim (JS.or_default (q_med q) ""))));
    [now left |].
  destruct (negb (JS.truthy (JS.trim (JS.or_default (q_location q) ""))));
    [now left |].
  right.
  destruct (rxnormLookup up st _) as [[d | err] st1]; [| reflexivity].
  destruct (truthyId (rxcui d)) as [rx |]; [| reflexivity].
  pose proof (geocodeText_cache_rxnorm up st1
                (JS.trim (JS.or_default (q_location q) ""))) as Hg.
  destruct (geocodeText up st1 _) as [[[geo |] | err] st2]; cbn [snd] in *;
    try exact Hg.
  now destruct (findPharmacies up _ _ _).
Qed.

Lemma reachable_cache_ok st :
  reachable st -> map_Forall (fun _ => drugOk) (cache_rxnorm st).
Proof.
  induction 1 as [| up st q Hup Hr IH].
  - apply map_Forall_empty.
  - destruct (search_cache_rxnorm up st q) as [-> | ->]; [exact IH |].
    now apply rxnormLookup_ok.
Qed.

(** C4, as the resolver has it. In a process whose providers send
    candidates with an identifier and a name, every resolution the resolver
    returns has its identifier exactly when it has its name, and then it has
    no suggestions. A resolution served from the cache is the cached one.
    A resolution that is not, and has no identifier, has exactly the
    suggestions the spelling provider returned for the name, none when the
    provider returned no list. *)
Theorem rxnormLookup_resolution up st med d st' :
  completeProvider up ->
  reachable st ->
  rxnormLookup up st med = (Return d, st') ->
  (is_Some (rxcui d) <-> is_Some (drug_name d))
  /\ (is_Some (rxcui d) -> suggestions d = [])
  /\ (forall payload,
        cache_rxnorm st !! JS.toLowerCase (JS.trim med) = Some payload ->
        d = payload)
  /\ (cache_rxnorm st !! JS.toLowerCase (JS.trim med) = None ->
      rxcui d = None ->
      exists s,
        rxnav_spelling up med = Return s /\ suggestions d = default [] s).
Proof.
  intros Hup Hr E.
  destruct (rxnormLookup_ok up st med Hup (reachable_cache_ok st Hr))
    as [_ Hd].
  destruct (Hd d) as [Hiff Hsg]; [now rewrite E |].
  split; [exact Hiff |]. split; [exact Hsg |].
  unfold rxnormLookup in E. split.
  - intros payload Hc. rewrite Hc in E. congruence.
  - intros Hc Hnone. rewrite Hc in E.
    destruct (rxnav_drugs up med) as [data | e] eqn:Ed; [| discriminate].
    destruct (findBest _ (default [] data)) as [best |] eqn:Eb.
    + assert (Hb : completeProperty best = true).
      { destruct data as [groups |]; [| discriminate].
        exact (findBest_complete _ _ _ (Hup _ _ Ed) Eb). }
      injection E as <- _. cbn in Hnone. unfold completeProperty in Hb.
      rewrite Hnone in Hb. discriminate.
    + destruct (rxnav_spelling up med) as [s | e]; [| discriminate].
      injection E as <- _. now exists s.
Qed.

Lemma rxnormLookup_resolution_witness :
  fst (rxnormLookup spellingUpstream empty_caches "amoxicilin")
  = Return misspelled
  /\ exists s,
       rxnav_spelling spellingUpstream "amoxicilin" = Return s
       /\ suggestions misspelled = default [] s.
Proof.
  split; [reflexivity |].
  refine (proj2 (proj2 (proj2
            (rxnormLookup_resolution spellingUpstream empty_caches
               "amoxicilin" misspelled _ _ reachable_start _))) _ _).
  - intros med groups [= <-]. reflexivity.
  - vm_compute. reflexivity.
  - reflexivity.
  - reflexivity.
Defined.

(** C4, as the specification has it, fails: for a name that RxNorm neither
    knows nor can correct the resolution has no identifier, no name and no
    suggestions. *)
Lemma unresolved_without_suggestions :
  fst (rxnormLookup silentUpstream empty_caches "zzzz") = Return unresolved
  /\ rxcui unresolved = None
  /\ suggestions unresolved = []
  /\ ~ drugInvariant unresolved.
Proof.
  repeat split.
  intros [_ [_ H]]. destruct (H eq_refl) as [x Hx]. discriminate.
Qed.

(** ** The radius *)

(** A radius that is a number is clamped into [1000, 50000] meters. *)
Lemma radiusMeters_in_range r :
  PrimFloat.is_nan r = false ->
  PrimFloat.leb 1000 (radiusMeters r) = true
  /\ PrimFloat.leb (radiusMeters r) 50000 = true.
Proof.
  intros Hr. rewrite <- F64Facts.mul_1000_is_nan in Hr.
  unfold radiusMeters. set (y := (r * 1000)%float) in *.
  assert (Hmin : PrimFloat.is_nan (JS.Math_min 50000 y) = false
                 /\ PrimFloat.leb (JS.Math_min 50000 y) 50000 = true).
  { unfold JS.Math_min. rewrite Hr. cbn [orb].
    change (PrimFloat.is_nan 50000) with false. cbn [orb].
    change (PrimFloat.get_sign 50000) with false.
    destruct (PrimFloat.ltb 50000 y) eqn:E1; [split; reflexivity |].
    destruct (PrimFloat.ltb y 50000) eqn:E2;
      (split; [exact Hr | now apply F64Facts.not_ltb_leb]). }
  destruct Hmin as [Hn Hle]. set (t := JS.Math_min 50000 y) in *.
  unfold JS.Math_max. rewrite Hn.
  change (PrimFloat.is_nan 1000) with false. cbn [orb].
  change (PrimFloat.get_sign 1000) with false.
  destruct (PrimFloat.ltb 1000 t) eqn:E1.
  - split; [now apply F64Facts.ltb_leb | exact Hle].
  - destruct (PrimFloat.ltb t 1000); split; reflexivity.
Qed.

(** The radius of a query whose [radius_km] is 0 or 1000 is in range, and
    the default radius is 10 km. *)
Lemma radiusMeters_edges :
  radiusMeters (radiusKmOf (sampleQuery (Some "0") None None None None))
  = 1000%float
  /\ radiusMeters (radiusKmOf (sampleQuery (Some "1000") None None None None))
     = 50000%float
  /\ radiusMeters (radiusKmOf defaultQuery) = 10000%float.
Proof. repeat split. Qed.

(** C5 at [radius_km=abc]: the radius is NaN, the clamp lets NaN through,
    and Facility Search is called with NaN meters. *)
Theorem radius_nan_reaches_facility_search :
  PrimFloat.is_nan (radiusKmOf abcRadiusQuery) = true
  /\ PrimFloat.is_nan (radiusMeters (radiusKmOf abcRadiusQuery)) = true
  /\ PrimFloat.leb 1000 (radiusMeters (radiusKmOf abcRadiusQuery)) = false
  /\ PrimFloat.leb (radiusMeters (radiusKmOf abcRadiusQuery)) 50000 = false
  /\ status (answer echoUpstream empty_caches abcRadiusQuery) = 200
  /\ map dist (itemsOf (answer echoUpstream empty_caches abcRadiusQuery))
     = [Some (radiusMeters (radiusKmOf abcRadiusQuery))].
Proof. repeat split; vm_compute; reflexivity. Qed.

(** ** The caches *)

(** A resolution that is returned is in the cache under the key of the
    name. *)
Lemma rxnormLookup_stored up st med d st' :
  rxnormLookup up st med = (Return d, st') ->
  cache_rxnorm st' !! JS.toLowerCase (JS.trim med) = Some d.
Proof.
  unfold rxnormLookup.
  destruct (cache_rxnorm st !! _) as [payload |] eqn:Ec.
  - now intros [= <- <-].
  - destruct (rxnav_drugs up med) as [data | e]; [| discriminate].
    destruct (findBest _ _) as [best |].
    + intros [= <- <-]. cbn [cache_rxnorm]. apply lookup_insert_eq.
    + destruct (rxnav_spelling up med) as [sg | e]; [| discriminate].
      intros [= <- <-]. cbn [cache_rxnorm]. apply lookup_insert_eq.
Qed.

Lemma rxnormLookup_hit up st med d :
  cache_rxnorm st !! JS.toLowerCase (JS.trim med) = Some d ->
  rxnormLookup up st med = (Return d, st).
Proof. intros H. unfold rxnormLookup. now rewrite H. Qed.

Lemma geocodeText_stored up st text c st' :
  geocodeText up st text = (Return (Some c), st') ->
  cache_geocode st' !! JS.toLowerCase (JS.trim text) = Some c.
Proof.
  unfold geocodeText.
  destruct (cache_geocode st !! _) as [payload |] eqn:Ec.
  - now intros [= <- <-].
  - destruct (keyConfigured up).
    + destruct (geoapify_geocode up text) as [[| feat feats] | e];
        try discriminate.
      intros [= <- <-]. cbn [cache_geocode]. apply lookup_insert_eq.
    + destruct (nominatim_search up text) as [[| [la lo] rest] | e];
        try discriminate.
      intros [= <- <-]. cbn [cache_geocode]. apply lookup_insert_eq.
Qed.

Lemma geocodeText_hit up st text c :
  cache_geocode st !! JS.toLowerCase (JS.trim text) = Some c ->
  geocodeText up st text = (Return (Some c), st).
Proof. intros H. unfold geocodeText. now rewrite H. Qed.

(** X1. Once a name is resolved, found or not, every later lookup of a
    name with the same key (the name trimmed and lower-cased) returns the
    same resolution and leaves the caches alone, whatever the provider would
    answer then. *)
Theorem rxnormLookup_served_from_cache up st med d st' up' med' :
  rxnormLookup up st med = (Return d, st') ->
  JS.toLowerCase (JS.trim med') = JS.toLowerCase (JS.trim med) ->
  rxnormLookup up' st' med' = (Return d, st').
Proof.
  intros H Hk. apply rxnormLookup_hit. rewrite Hk.
  now apply rxnormLookup_stored with up st.
Qed.

Lemma rxnormLookup_served_from_cache_witness :
  rxnormLookup offlineUpstream resolvedCaches "  AMOXICILLIN "
  = (Return amoxicillin, resolvedCaches).
Proof.
  apply (rxnormLookup_served_from_cache sampleUpstream empty_caches
           "Amoxicillin"); vm_compute; reflexivity.
Defined.

(** X2. A location that resolved is answered from the cache afterwards,
    under the same key, by either provider configuration and whatever the
    providers would answer then. *)
Theorem geocodeText_served_from_cache up st text c st' up' text' :
  geocodeText up st text = (Return (Some c), st') ->
  JS.toLowerCase (JS.trim text') = JS.toLowerCase (JS.trim text) ->
  geocodeText up' st' text' = (Return (Some c), st').
Proof.
  intros H Hk. apply geocodeText_hit. rewrite Hk.
  now apply geocodeText_stored with up st.
Qed.

Lemma geocodeText_served_from_cache_witness :
  geocodeText offlineUpstream locatedCaches " boston, ma"
  = (Return (Some boston), locatedCaches).
Proof.
  apply (geocodeText_served_from_cache sampleUpstream empty_caches
           "Boston, MA"); vm_compute; reflexivity.
Defined.

(** What a lookup leaves in the caches when it does not return a value. *)
Lemma rxnormLookup_throw_keeps up st med e st' :
  rxnormLookup up st med = (Throw e, st') -> st' = st.
Proof.
  unfold rxnormLookup.
  destruct (cache_rxnorm st !! _); [discriminate |].
  destruct (rxnav_drugs up med) as [data | e0]; [| now intros [= _ <-]].
  destruct (findBest _ _); [discriminate |].
  destruct (rxnav_spelling up med) as [sg | e0]; [discriminate |].
  now intros [= _ <-].
Qed.

Lemma geocodeText_unresolved_keeps up st text st' :
  (exists e, geocodeText up st text = (Throw e, st'))
  \/ geocodeText up st text = (Return None, st') ->
  st' = st.
Proof.
  assert (G : forall r, geocodeText up st text = (r, st') ->
                        (forall c, r <> Return (Some c)) -> st' = st).
  { unfold geocodeText. intros r.
    destruct (cache_geocode st !! _) as [payload |].
    - intros [= <- <-] Hr. now destruct (Hr payload).
    - destruct (keyConfigured up).
      + destruct (geoapify_geocode up text) as [[| feat feats] | e0];
          intros [= <- <-] Hr; try reflexivity. now destruct (Hr feat).
      + destruct (nominatim_search up text) as [[| [la lo] rest] | e0];
          intros [= <- <-] Hr; try reflexivity.
        now destruct (Hr {| geo_lat := JS.parseFloat la;
                            geo_lon := JS.parseFloat lo |}). }
  intros [[e H] | H]; apply (G _ H); discriminate.
Qed.

(** X3. A location that is not found is not cached: both caches are as
    they were and the key is still missing, so the next request for it asks
    the provider again. *)
Theorem geocodeText_absent_not_cached up st text st' :
  geocodeText up st text = (Return None, st') ->
  st' = st /\ cache_geocode st' !! JS.toLowerCase (JS.trim text) = None.
Proof.
  intros H.
  assert (E : st' = st)
    by (apply geocodeText_unresolved_keeps with up text; auto).
  subst st'. split; [reflexivity |].
  unfold geocodeText in H.
  destruct (cache_geocode st !! _); [discriminate | reflexivity].
Qed.

Lemma geocodeText_absent_not_cached_witness :
  snd (geocodeText silentUpstream empty_caches "Atlantis") = empty_caches
  /\ cache_geocode (snd (geocodeText silentUpstream empty_caches "Atlantis"))
       !! "atlantis" = None.
Proof.
  refine (geocodeText_absent_not_cached silentUpstream empty_caches
            "Atlantis" _ _).
  vm_compute. reflexivity.
Defined.

(** A lookup only adds to the caches: what is cached stays, unchanged. *)
Lemma rxnormLookup_keeps up st med :
  cache_geocode (snd (rxnormLookup up st med)) = cache_geocode st
  /\ forall k v, cache_rxnorm st !! k = Some v ->
                 cache_rxnorm (snd (rxnormLookup up st med)) !! k = Some v.
Proof.
  unfold rxnormLookup.
  destruct (cache_rxnorm st !! _) as [payload |] eqn:Ec; [now split |].
  assert (Hins : forall p k v,
             cache_rxnorm st !! k = Some v ->
             <[JS.toLowerCase (JS.trim med) := p]> (cache_rxnorm st) !! k
             = Some v).
  { intros p k v Hk. rewrite lookup_insert_ne; [exact Hk |].
    intros <-. congruence. }
  destruct (rxnav_drugs up med) as [data | e]; [| now split].
  destruct (findBest _ _) as [best |]; [split; [reflexivity | apply Hins] |].
  destruct (rxnav_spelling up med) as [sg | e]; [| now split].
  split; [reflexivity | apply Hins].
Qed.

Lemma geocodeText_keeps up st text :
  cache_rxnorm (snd (geocodeText up st text)) = cache_rxnorm st
  /\ forall k v, cache_geocode st !! k = Some v ->
                 cache_geocode (snd (geocodeText up st text)) !! k = Some v.
Proof.
  split; [apply geocodeText_cache_rxnorm |].
  unfold geocodeText.
  destruct (cache_geocode st !! _) as [payload |] eqn:Ec; [auto |].
  assert (Hins : forall p k v,
             cache_geocode st !! k = Some v ->
             <[JS.toLowerCase (JS.trim text) := p]> (cache_geocode st) !! k
             = Some v).
  { intros p k v Hk. rewrite lookup_insert_ne; [exact Hk |].
    intros <-. congruence. }
  destruct (keyConfigured up).
  - destruct (geoapify_geocode up text) as [[| feat feats] | e]; auto.
    apply Hins.
  - destruct (nominatim_search up text) as [[| [la lo] rest] | e]; auto.
    apply Hins.
Qed.

(** The caches a request leaves are those its two lookups leave. *)
Lemma search_caches up st q :
  snd (search up st q) = st
  \/ snd (search up st q)
     = snd (rxnormLookup up st (JS.trim (JS.or_default (q_med q) "")))
  \/ snd (search up st q)
     = snd (geocodeText up
              (snd (rxnormLookup up st (JS.trim (JS.or_default (q_med q) ""))))
              (JS.trim (JS.or_default (q_location q) ""))).
Proof.
  unfold search.
  destruct (negb (JS.truthy (JS.trim (JS.or_default (q_med q) ""))));
    [now left |].
  destruct (negb (JS.truthy (JS.trim (JS.or_default (q_location q) ""))));
    [now left |].
  destruct (rxnormLookup up st _) as [[d | err] st1]; [| right; now left].
  destruct (truthyId (rxcui d)) as [rx |]; [| right; now left].
  right; right. cbn [snd].
  destruct (geocodeText up st1 _) as [[[geo |] | err] st2]; try reflexivity.
  now destruct (findPharmacies up _ _ _).
Qed.

(** X4. A request never overwrites or removes a cache entry: whatever was
    cached before it, for a medicine or for a location, is cached after it
    with the same value. *)
Theorem search_keeps_cache_entries up st q :
  (forall k d, cache_rxnorm st !! k = Some d ->
               cache_rxnorm (snd (search up st q)) !! k = Some d)
  /\ (forall k c, cache_geocode st !! k = Some c ->
                  cache_geocode (snd (search up st q)) !! k = Some c).
Proof.
  pose proof (rxnormLookup_keeps up st
                (JS.trim (JS.or_default (q_med q) ""))) as [Hg1 Hr1].
  pose proof (geocodeText_keeps up
                (snd (rxnormLookup up st (JS.trim (JS.or_default (q_med q) ""))))
                (JS.trim (JS.or_default (q_location q) ""))) as [Hr2 Hg2].
  destruct (search_caches up st q) as [-> | [-> | ->]].
  - auto.
  - split; [exact Hr1 | intros k c Hk; now rewrite Hg1].
  - split.
    + intros k d Hk. rewrite Hr2. now apply Hr1.
    + intros k c Hk. apply Hg2. now rewrite Hg1.
Qed.

(** X5. A request that succeeded is answered from the caches when it is
    repeated: with the same answers from Facility Search, the same request
    gets the same answer and leaves the caches as they are, even when RxNorm
    and the geocoder answer differently or fail. *)
Theorem repeated_request_served_from_cache up st q res st' up' :
  search up st q = ({| status := 200; json := ResultBody res |}, st') ->
  (forall la lo m, findPharmacies up' la lo m = findPharmacies up la lo m) ->
  search up' st' q = ({| status := 200; json := ResultBody res |}, st').
Proof.
  intros H Hp. unfold search in *.
  destruct (negb (JS.truthy (JS.trim (JS.or_default (q_med q) ""))));
    [discriminate |].
  destruct (negb (JS.truthy (JS.trim (JS.or_default (q_location q) ""))));
    [discriminate |].
  destruct (rxnormLookup up st _) as [[d | err] st1] eqn:E1.
  2: { apply (f_equal (fun r => json (fst r))) in H. discriminate. }
  destruct (truthyId (rxcui d)) as [rx |] eqn:E2; [| discriminate].
  destruct (geocodeText up st1 _) as [[[geo |] | err] st2] eqn:E3;
    [| discriminate |].
  2: { apply (f_equal (fun r => json (fst r))) in H. discriminate. }
  destruct (findPharmacies up _ _ _) as [places | err] eqn:E4.
  2: { apply (f_equal (fun r => json (fst r))) in H. discriminate. }
  injection H as Hres <-.
  assert (Hd : cache_rxnorm st2
               !! JS.toLowerCase (JS.trim (JS.trim (JS.or_default (q_med q) "")))
               = Some d).
  { pose proof (geocodeText_cache_rxnorm up st1
                  (JS.trim (JS.or_default (q_location q) ""))) as Hk.
    rewrite E3 in Hk. cbn [snd] in Hk. rewrite Hk.
    now apply rxnormLookup_stored with up st. }
  rewrite (rxnormLookup_hit up' st2 _ d Hd), E2.
  rewrite (geocodeText_hit up' st2 _ geo
             (geocodeText_stored up st1 _ geo st2 E3)).
  rewrite Hp, E4. now rewrite Hres.
Qed.

Lemma repeated_request_served_from_cache_witness :
  search offlineUpstream warmCaches defaultQuery
  = ({| status := 200;
        json := ResultBody
                  (resultOf (answer sampleUpstream empty_caches defaultQuery)) |},
     warmCaches).
Proof.
  apply (repeated_request_served_from_cache sampleUpstream empty_caches).
  - vm_compute. reflexivity.
  - intros la lo m. reflexivity.
Defined.

(** Only the two RxNorm calls matter to the medicine resolver. *)
Lemma rxnormLookup_ext up up' st med :
  rxnav_drugs up' = rxnav_drugs up ->
  rxnav_spelling up' = rxnav_spelling up ->
  rxnormLookup up' st med = rxnormLookup up st med.
Proof. intros Hd Hs. unfold rxnormLookup. now rewrite Hd, Hs. Qed.

(** X6. Validation comes first: when [med] or [location] is empty once
    trimmed, the request is answered 400 without any call to a provider and
    without a change to the caches. *)
Theorem missing_parameter_calls_no_provider up st q :
  JS.trim (JS.or_default (q_med q) "") = ""
  \/ JS.trim (JS.or_default (q_location q) "") = "" ->
  status (answer up st q) = 400
  /\ snd (search up st q) = st
  /\ forall up', search up' st q = search up st q.
Proof.
  intros H. unfold answer, search.
  destruct (JS.trim (JS.or_default (q_med q) "")) as [| c m] eqn:Em;
    cbn [JS.truthy negb]; [repeat split |].
  destruct H as [H | ->]; [discriminate |].
  cbn [JS.truthy negb]. repeat split.
Qed.

Lemma missing_parameter_calls_no_provider_witness :
  status (answer offlineUpstream empty_caches blankQuery) = 400
  /\ snd (search offlineUpstream empty_caches blankQuery) = empty_caches
  /\ forall up',
       search up' empty_caches blankQuery
       = search offlineUpstream empty_caches blankQuery.
Proof.
  apply missing_parameter_calls_no_provider. left. vm_compute. reflexivity.
Defined.

(** X7. A medicine that does not resolve ends the request at the resolver:
    the answer is 400 with the resolver's suggestions, and neither the
    geocoder nor Facility Search is called, so the answer and the caches do
    not depend on them. *)
Theorem invalid_medicine_stops_at_resolver up st q d st1 :
  JS.trim (JS.or_default (q_med q) "") <> "" ->
  JS.trim (JS.or_default (q_location q) "") <> "" ->
  rxnormLookup up st (JS.trim (JS.or_default (q_med q) "")) = (Return d, st1) ->
  truthyId (rxcui d) = None ->
  forall up',
    rxnav_drugs up' = rxnav_drugs up ->
    rxnav_spelling up' = rxnav_spelling up ->
    search up' st q
    = ({| status := 400;
          json := InvalidMedicineBody "Invalid medicine name" (suggestions d) |},
       st1).
Proof.
  intros Hm Hl E1 E2 up' Hd Hs. unfold search.
  destruct (JS.trim (JS.or_default (q_med q) "")) as [| c m];
    [congruence |].
  destruct (JS.trim (JS.or_default (q_location q) "")) as [| c' l];
    [congruence |].
  cbn [JS.truthy negb].
  rewrite (rxnormLookup_ext up up' st _ Hd Hs), E1, E2. reflexivity.
Qed.

Lemma invalid_medicine_stops_at_resolver_witness :
  search unknownDrugUpstream empty_caches defaultQuery
  = ({| status := 400;
        json := InvalidMedicineBody "Invalid medicine name" [] |},
     snd (rxnormLookup silentUpstream empty_caches "Amoxicillin")).
Proof.
  refine (invalid_medicine_stops_at_resolver silentUpstream empty_caches
            defaultQuery unresolved _ _ _ _ _ unknownDrugUpstream
            eq_refl eq_refl).
  - vm_compute. discriminate.
  - vm_compute. discriminate.
  - vm_compute. reflexivity.
  - reflexivity.
Defined.

(** ** The choice of a candidate *)

Lemma scanProps_find key props best :
  scanProps key props best
  = match find (exactMatch key) props with
    | Some p => Some p
    | None => match best with Some b => Some b | None => head props end
    end.
Proof.
  revert best. induction props as [| p props IH]; intros best;
    cbn [scanProps find head].
  - now destruct best.
  - unfold exactMatch at 1.
    destruct (String.eqb (JS.toLowerCase (String_opt (cp_name p))) key);
      [reflexivity |].
    rewrite IH. destruct (find (exactMatch key) props); [reflexivity |].
    now destruct best.
Qed.

Lemma fold_scanProps key groups : forall best,
  fold_left
    (fun best g => scanProps key (default [] (conceptProperties g)) best)
    groups best
  = match lastGroupMatch key groups with
    | Some p => Some p
    | None =>
        match best with Some b => Some b | None => head (candidates groups) end
    end.
Proof.
  induction groups as [| g groups IH]; intros best;
    cbn [fold_left lastGroupMatch].
  - now destruct best.
  - rewrite IH, scanProps_find.
    destruct (lastGroupMatch key groups) as [p |]; [reflexivity |].
    unfold candidates. cbn [map concat]. fold (candidates groups).
    destruct (find (exactMatch key) (default [] (conceptProperties g)));
      [reflexivity |].
    destruct best as [b |]; [reflexivity |].
    now destruct (default [] (conceptProperties g)).
Qed.

Lemma lastGroupMatch_spec key groups :
  match lastGroupMatch key groups with
  | Some p => In p (candidates groups) /\ exactMatch key p = true
  | None => forallb (fun p => negb (exactMatch key p)) (candidates groups) = true
  end.
Proof.
  induction groups as [| g groups IH]; cbn [lastGroupMatch]; [reflexivity |].
  unfold candidates in *. cbn [map concat].
  destruct (lastGroupMatch key groups) as [p |].
  - destruct IH as [Hin Hm]. split; [apply in_or_app; now right | exact Hm].
  - destruct (find (exactMatch key) (default [] (conceptProperties g)))
      as [p |] eqn:Ef.
    + apply find_some in Ef as [Hin Hm].
      split; [apply in_or_app; now left | exact Hm].
    + rewrite forallb_app, IH, andb_true_r.
      apply forallb_forall. intros x Hx.
      now rewrite (find_none _ _ Ef x Hx).
Qed.

(** X8. The resolver's candidate: the first exact match (the name
    lower-cased is the key) of the last group that has one; without any
    exact match, the very first candidate; none only when the provider sent
    no candidate. So an exact match is always preferred when there is one. *)
Theorem findBest_choice key groups :
  findBest key groups
  = match lastGroupMatch key groups with
    | Some p => Some p
    | None => head (candidates groups)
    end
  /\ (existsb (exactMatch key) (candidates groups) = true ->
      exists p, findBest key groups = Some p
                /\ In p (candidates groups) /\ exactMatch key p = true)
  /\ (findBest key groups = None <-> candidates groups = []).
Proof.
  assert (E : findBest key groups
              = match lastGroupMatch key groups with
                | Some p => Some p
                | None => head (candidates groups)
                end)
    by (unfold findBest; now rewrite fold_scanProps).
  pose proof (lastGroupMatch_spec key groups) as Hs.
  split; [exact E |]. rewrite E. split.
  - intros Hex. destruct (lastGroupMatch key groups) as [p |].
    + now exists p.
    + apply existsb_exists in Hex as (x & Hx & Hm).
      rewrite forallb_forall in Hs. specialize (Hs x Hx).
      now rewrite Hm in Hs.
  - destruct (lastGroupMatch key groups) as [p |].
    + destruct Hs as [Hin _]. split; [discriminate |].
      intros Hc. now rewrite Hc in Hin.
    + destruct (candidates groups); cbn; split; congruence.
Qed.

(** ** Prices of the items *)

(** A number from a finite number up and below some number is finite. *)
Lemma between_is_finite lo hi p :
  PrimFloat.is_finite lo = true ->
  PrimFloat.leb lo p = true -> PrimFloat.ltb p hi = true ->
  PrimFloat.is_finite p = true.
Proof.
  intros Hf. apply F64Facts.Prim2SF_finite in Hf. revert Hf.
  unfold PrimFloat.is_finite, PrimFloat.is_nan, PrimFloat.is_infinity.
  rewrite leb_spec, ltb_spec, !FloatAxioms.eqb_spec, abs_spec.
  change (Prim2SF PrimFloat.infinity) with (S754_infinity false).
  unfold SFleb, SFltb, SFeqb.
  destruct (Prim2SF p) as [s | s | | s m e]; cbn [SFabs].
  - reflexivity.
  - destruct s.
    + destruct (Prim2SF lo) as [? | [] | | ? ? ?]; discriminate.
    + destruct (Prim2SF hi) as [? | [] | | ? ? ?]; discriminate.
  - destruct (Prim2SF lo); discriminate.
  - intros _ _ _. cbn [SFcompare].
    rewrite Z.compare_refl.
    change (Pos.compare_cont Eq m m) with (Pos.compare m m).
    rewrite Pos.compare_refl. now destruct s.
Qed.

Lemma simulatePrice_bounds rx p :
  PrimFloat.leb 10 (simulatePrice rx p) = true
  /\ PrimFloat.ltb (simulatePrice rx p) 52 = true.
Proof.
  unfold simulatePrice.
  set (a := seedNum (String_ rx) mod 40).
  set (b := seedNum (String_ p) mod 200).
  assert (Ha : 0 <= a < 40) by (apply Z.mod_pos_bound; lia).
  assert (Hb : 0 <= b < 200) by (apply Z.mod_pos_bound; lia).
  pose proof (priceCheck_ok a b Ha Hb) as Hc. unfold priceCheck in Hc.
  apply andb_prop in Hc as [Hc Hlt]. apply andb_prop in Hc as [_ Hle].
  now split.
Qed.

Lemma simulatePrice_finite rx p :
  PrimFloat.is_finite (simulatePrice rx p) = true.
Proof.
  destruct (simulatePrice_bounds rx p) as [Hlo Hhi].
  exact (between_is_finite 10 52 _ eq_refl Hlo Hhi).
Qed.

Lemma In_enrich rx places i :
  In i (enrich rx places) ->
  In (place i) places
  /\ price_usd i = simulatePrice (IdStr rx) (id (place i))
  /\ availability i = simulateStock (id (place i)).
Proof.
  unfold enrich. intros H. apply in_map_iff in H as (p & <- & Hp).
  now repeat split.
Qed.

Lemma filter_filter {A} (f g : A -> bool) l :
  List.filter f (List.filter g l) = List.filter (fun x => g x && f x) l.
Proof.
  induction l as [| x l IH]; [reflexivity |]. cbn [List.filter].
  destruct (g x); cbn [List.filter andb]; [| exact IH].
  destruct (f x); now rewrite IH.
Qed.

Lemma filter_all {A} (l : list A) : List.filter (fun _ => true) l = l.
Proof. induction l as [| x l IH]; cbn; congruence. Qed.

(** The two guarded filters of the handler are one filter by [passes]. *)
Lemma filters_passes lo hi stock l :
  filterStock stock (filterPrice lo hi l) = List.filter (passes lo hi stock) l.
Proof.
  assert (Hmin : forall l0,
             match lo with
             | Some b => List.filter (fun i => PrimFloat.leb b (price_usd i)) l0
             | None => l0
             end
             = List.filter (fun i => match lo with
                                     | Some b => PrimFloat.leb b (price_usd i)
                                     | None => true
                                     end) l0)
    by (intros; destruct lo; [reflexivity | now rewrite filter_all]).
  assert (Hmax : forall l0,
             match hi with
             | Some b => List.filter (fun i => PrimFloat.leb (price_usd i) b) l0
             | None => l0
             end
             = List.filter (fun i => match hi with
                                     | Some b => PrimFloat.leb (price_usd i) b
                                     | None => true
                                     end) l0)
    by (intros; destruct hi; [reflexivity | now rewrite filter_all]).
  unfold filterPrice. rewrite Hmin, Hmax, filter_filter.
  unfold filterStock, passes.
  destruct (String.eqb_spec stock "in_stock") as [-> | Hin].
  - change (String.eqb "in_stock" "low_stock") with false.
    cbv iota. cbn [orb]. now rewrite filter_filter.
  - destruct (String.eqb_spec stock "low_stock") as [-> | Hlow].
    + cbn [orb]. now rewrite filter_filter.
    + cbn [orb]. apply filter_ext. intros i. now rewrite andb_true_r.
Qed.

(** X9. The items of a successful answer are exactly the pharmacies that
    Facility Search returned and that pass every active filter, each once
    per occurrence, in some order: nothing that passes is dropped and
    nothing else is added. *)
Theorem items_exactly_the_passing up st q res :
  json (answer up st q) = ResultBody res ->
  exists rx geo places,
    findPharmacies up (geo_lat geo) (geo_lon geo)
      (radiusMeters (radiusKmOf q)) = Return places
    /\ Permutation (items res)
         (List.filter
            (passes (boundOf (q_price_min q)) (boundOf (q_price_max q))
               (JS.or_default (q_stock q) "any"))
            (enrich rx places))
    /\ (total res <= length places)%nat.
Proof.
  intros H.
  destruct (search_ok up st q res H)
    as (d & rx & geo & places & st1 & st2 & _ & _ & _ & Hp & Hi & Ht & _).
  exists rx, geo, places. split; [exact Hp |].
  rewrite filters_passes in Hi.
  assert (Hperm : Permutation (items res)
                    (List.filter
                       (passes (boundOf (q_price_min q))
                          (boundOf (q_price_max q))
                          (JS.or_default (q_stock q) "any"))
                       (enrich rx places)))
    by (rewrite Hi; apply applySort_perm).
  split; [exact Hperm |].
  rewrite Ht, (Permutation_length Hperm).
  etransitivity; [apply filter_length_le |].
  unfold enrich. now rewrite length_map.
Qed.

Lemma items_exactly_the_passing_witness :
  exists rx geo places,
    findPharmacies sampleUpstream (geo_lat geo) (geo_lon geo)
      (radiusMeters (radiusKmOf boundedQuery)) = Return places
    /\ Permutation
         (items (resultOf (answer sampleUpstream empty_caches boundedQuery)))
         (List.filter
            (passes (boundOf (q_price_min boundedQuery))
               (boundOf (q_price_max boundedQuery))
               (JS.or_default (q_stock boundedQuery) "any"))
            (enrich rx places))
    /\ (total (resultOf (answer sampleUpstream empty_caches boundedQuery))
        <= length places)%nat.
Proof.
  apply (items_exactly_the_passing sampleUpstream empty_caches boundedQuery).
  vm_compute. reflexivity.
Defined.

(** The whole body of a successful answer. *)
Lemma search_result up st q res :
  json (answer up st q) = ResultBody res ->
  exists d rx geo places st1 st2,
    rxnormLookup up st (JS.trim (JS.or_default (q_med q) "")) = (Return d, st1)
    /\ rxcui d = Some rx /\ JS.truthy rx = true
    /\ geocodeText up st1 (JS.trim (JS.or_default (q_location q) ""))
       = (Return (Some geo), st2)
    /\ findPharmacies up (geo_lat geo) (geo_lon geo)
         (radiusMeters (radiusKmOf q)) = Return places
    /\ res
       = {| res_name := drug_name d; res_rxcui := rxcui d;
            res_text := JS.trim (JS.or_default (q_location q) "");
            res_lat := geo_lat geo; res_lon := geo_lon geo;
            total := length (items res);
            items :=
              applySort (JS.or_default (q_sort q) "distance")
                (filterStock (JS.or_default (q_stock q) "any")
                   (filterPrice (boundOf (q_price_min q))
                      (boundOf (q_price_max q)) (enrich rx places))) |}
    /\ search up st q = ({| status := 200; json := ResultBody res |}, st2).
Proof.
  intros H. unfold answer, search in *.
  destruct (negb (JS.truthy (JS.trim (JS.or_default (q_med q) ""))));
    [discriminate |].
  destruct (negb (JS.truthy (JS.trim (JS.or_default (q_location q) ""))));
    [discriminate |].
  destruct (rxnormLookup up st _) as [[d | err] st1] eqn:E1; [| discriminate].
  destruct (truthyId (rxcui d)) as [rx |] eqn:E2; [| discriminate].
  destruct (geocodeText up st1 _) as [[[geo |] | err] st2] eqn:E3;
    [| discriminate | discriminate].
  destruct (findPharmacies up _ _ _) as [places | err] eqn:E4; [| discriminate].
  cbn [fst json] in H. injection H as <-. cbn [items].
  exists d, rx, geo, places, st1, st2.
  unfold truthyId in E2. destruct (rxcui d) as [s |]; [| discriminate].
  destruct (JS.truthy s) eqn:Et; [| discriminate]. injection E2 as ->.
  repeat split; assumption || reflexivity.
Qed.

(** X10. Every item of a successful answer is one of the pharmacies found,
    with the price and the stock level synthesized from the drug identifier
    the answer names and the pharmacy's id: a price in [10, 52) and one of
    the three stock levels. *)
Theorem items_are_synthesized up st q res :
  json (answer up st q) = ResultBody res ->
  exists rx geo places,
    res_rxcui res = Some rx
    /\ findPharmacies up (geo_lat geo) (geo_lon geo)
         (radiusMeters (radiusKmOf q)) = Return places
    /\ Forall (fun i =>
                 In (place i) places
                 /\ price_usd i = simulatePrice (IdStr rx) (id (place i))
                 /\ availability i = simulateStock (id (place i))
                 /\ PrimFloat.leb 10 (price_usd i) = true
                 /\ PrimFloat.ltb (price_usd i) 52 = true
                 /\ In (availability i)
                      ["out_of_stock"; "low_stock"; "in_stock"])
              (items res).
Proof.
  intros H.
  destruct (search_result up st q res H)
    as (d & rx & geo & places & st1 & st2 & _ & Hid & _ & _ & Hp & Hres & _).
  exists rx, geo, places.
  split; [rewrite Hres; exact Hid |]. split; [exact Hp |].
  apply List.Forall_forall. intros i Hi.
  rewrite Hres in Hi. cbn [items] in Hi.
  apply (Permutation_in i (applySort_perm _ _)) in Hi.
  apply filterStock_In, filterPrice_In in Hi as (Hi & _).
  apply In_enrich in Hi as (Hpl & Hpr & Hav).
  destruct (simulatePrice_bounds (IdStr rx) (id (place i))) as [Hlo Hhi].
  rewrite Hpr, Hav. repeat split; try assumption.
  unfold simulateStock.
  destruct (_ <? 10); [now left |].
  destruct (_ <? 35); [right; now left | right; right; now left].
Qed.

Lemma items_are_synthesized_witness :
  exists rx geo places,
    res_rxcui (resultOf (answer sampleUpstream empty_caches defaultQuery))
    = Some rx
    /\ findPharmacies sampleUpstream (geo_lat geo) (geo_lon geo)
         (radiusMeters (radiusKmOf defaultQuery)) = Return places
    /\ Forall (fun i =>
                 In (place i) places
                 /\ price_usd i = simulatePrice (IdStr rx) (id (place i))
                 /\ availability i = simulateStock (id (place i))
                 /\ PrimFloat.leb 10 (price_usd i) = true
                 /\ PrimFloat.ltb (price_usd i) 52 = true
                 /\ In (availability i)
                      ["out_of_stock"; "low_stock"; "in_stock"])
              (items (resultOf (answer sampleUpstream empty_caches
                                  defaultQuery))).
Proof.
  apply (items_are_synthesized sampleUpstream empty_caches defaultQuery).
  vm_compute. reflexivity.
Defined.

(** ** Sorting by price *)

Lemma byPrice_sign a b :
  PrimFloat.is_finite (price_usd a) = true ->
  PrimFloat.is_finite (price_usd b) = true ->
  PrimFloat.ltb 0 (byPriceAsc a b)
  = negb (PrimFloat.leb (price_usd a) (price_usd b))
  /\ PrimFloat.ltb 0 (byPriceDesc a b)
     = negb (PrimFloat.leb (price_usd b) (price_usd a)).
Proof.
  intros Ha Hb. unfold byPriceAsc, byPriceDesc.
  rewrite !F64Facts.sub_pos_iff_ltb, !F64Facts.ltb_units,
    !F64Facts.leb_units by assumption.
  now rewrite !Z.leb_antisym, !negb_involutive.
Qed.

Lemma price_le_total x y :
  PrimFloat.is_finite x = true -> PrimFloat.is_finite y = true ->
  PrimFloat.leb x y = false -> PrimFloat.leb y x = true.
Proof.
  intros Hx Hy. rewrite !F64Facts.leb_units by assumption.
  rewrite Z.leb_gt, Z.leb_le. lia.
Qed.

Lemma sort_byPrice l :
  Forall (fun i => PrimFloat.is_finite (price_usd i) = true) l ->
  StronglySorted PriceLe (JS.sort byPriceAsc l)
  /\ StronglySorted PriceGe (JS.sort byPriceDesc l).
Proof.
  intros Hl. split;
    apply sort_sorted
      with (P := fun i => PrimFloat.is_finite (price_usd i) = true);
    try exact Hl; unfold PriceLe, PriceGe.
  - intros x y Hx Hy E.
    rewrite (proj1 (byPrice_sign x y Hx Hy)) in E.
    apply negb_true_iff in E. now apply price_le_total.
  - intros x y Hx Hy E.
    rewrite (proj1 (byPrice_sign x y Hx Hy)) in E.
    now apply negb_false_iff in E.
  - intros x y z Hx Hy Hz. now apply F64Facts.leb_trans.
  - intros x y Hx Hy E.
    rewrite (proj2 (byPrice_sign x y Hx Hy)) in E.
    apply negb_true_iff in E. now apply price_le_total.
  - intros x y Hx Hy E.
    rewrite (proj2 (byPrice_sign x y Hx Hy)) in E.
    now apply negb_false_iff in E.
  - intros x y z Hx Hy Hz Hxy Hyz.
    now apply F64Facts.leb_trans with (price_usd y).
Qed.

(** X11. A successful answer sorted by [price_asc] has its prices in
    ascending order, and sorted by [price_desc] in descending order: no item
    is followed, at any distance, by a cheaper (dearer) one. *)
Theorem price_sort_orders_prices up st q res :
  json (answer up st q) = ResultBody res ->
  (JS.or_default (q_sort q) "distance" = "price_asc" ->
   StronglySorted PriceLe (items res))
  /\ (JS.or_default (q_sort q) "distance" = "price_desc" ->
      StronglySorted PriceGe (items res)).
Proof.
  intros H.
  destruct (search_result up st q res H)
    as (d & rx & geo & places & st1 & st2 & _ & _ & _ & _ & _ & Hres & _).
  set (l := filterStock (JS.or_default (q_stock q) "any")
              (filterPrice (boundOf (q_price_min q))
                 (boundOf (q_price_max q)) (enrich rx places))) in *.
  assert (Hl : Forall (fun i => PrimFloat.is_finite (price_usd i) = true) l).
  { apply List.Forall_forall. intros i Hi. subst l.
    apply filterStock_In, filterPrice_In in Hi as (Hi & _).
    apply In_enrich in Hi as (_ & -> & _). apply simulatePrice_finite. }
  destruct (sort_byPrice l Hl) as [Hasc Hdesc].
  rewrite Hres. cbn [items]. split; intros ->; assumption.
Qed.

Lemma price_sort_orders_prices_witness :
  length (itemsOf (answer sampleUpstream empty_caches priceAscQuery)) = 3%nat
  /\ StronglySorted PriceLe
       (itemsOf (answer sampleUpstream empty_caches priceAscQuery)).
Proof.
  split; [vm_compute; reflexivity |].
  refine (proj1 (price_sort_orders_prices sampleUpstream empty_caches
                   priceAscQuery _ _) eq_refl).
  vm_compute. reflexivity.
Defined.

(** ** Facility Search *)

Lemma truthyId_nonempty v s : truthyId v = Some s -> s <> "".
Proof.
  unfold truthyId. destruct v as [t |]; [| discriminate].
  destruct t; cbn; [discriminate | now intros [= <-]].
Qed.

Lemma filterBoolean_nonempty parts :
  Forall (fun s => s <> "") (filterBoolean parts).
Proof.
  unfold filterBoolean. induction parts as [| v parts IH]; cbn.
  - constructor.
  - destruct (truthyId v) as [s |] eqn:E; cbn; [| exact IH].
    constructor; [now apply truthyId_nonempty with v | exact IH].
Qed.

Lemma append_nonempty (a b : string) : a <> "" -> (a ++ b)%string <> "".
Proof. destruct a; cbn; [congruence | discriminate]. Qed.

(** Joining non-empty parts, at least one, gives a non-empty text. *)
Lemma join_nonempty sep parts :
  parts <> [] -> Forall (fun s => s <> "") parts -> join sep parts <> "".
Proof.
  destruct parts as [| p rest]; [congruence |]. intros _ H.
  apply Forall_cons_iff in H as [Hp _]. cbn [join].
  destruct rest; [exact Hp | now apply append_nonempty].
Qed.

Lemma default_name_nonempty (d : string) v :
  d <> "" -> default d (truthyId v) <> "".
Proof.
  intros Hd. destruct (truthyId v) as [s |] eqn:E; cbn; [| exact Hd].
  now apply truthyId_nonempty with v.
Qed.

Section FacilityMappingFacts.

Variable haversineKm : float -> float -> float -> float -> float.

(** What [findPharmacies] returns is the provider's answer, mapped. *)
Lemma findPharmacies_withPlaces up raw la lo m places :
  findPharmacies (withPlaces haversineKm up raw) la lo m = Return places ->
  (keyConfigured up = true
   /\ exists feats,
        geoapify_features raw la lo m = Return feats
        /\ places = map (fromGeoapify haversineKm la lo) feats)
  \/ (keyConfigured up = false
      /\ exists elems,
           overpass_elements raw la lo m = Return elems
           /\ places = map (fromOverpass haversineKm la lo) elems).
Proof.
  unfold findPharmacies, keyConfigured, withPlaces. cbn.
  destruct (match GEOAPIFY_KEY up with
            | Some k => JS.truthy k
            | None => false
            end).
  - destruct (geoapify_features raw la lo m) as [feats | e]; cbn;
      [| discriminate].
    intros [= <-]. left. split; [reflexivity |]. now exists feats.
  - destruct (overpass_elements raw la lo m) as [elems | e]; cbn;
      [| discriminate].
    intros [= <-]. right. split; [reflexivity |]. now exists elems.
Qed.

(** X13. Facility Search returns one pharmacy for each element of the
    provider's answer, in the provider's order and under the element's id,
    and every pharmacy has a name: the provider's when it has one, a
    placeholder otherwise, never the empty text. *)
Theorem findPharmacies_one_per_element up raw la lo m places :
  findPharmacies (withPlaces haversineKm up raw) la lo m = Return places ->
  ((exists feats,
      geoapify_features raw la lo m = Return feats
      /\ map id places = map geoapifyId feats)
   \/ (exists elems,
         overpass_elements raw la lo m = Return elems
         /\ map id places = map overpassId elems))
  /\ Forall (fun p => name p <> "") places.
Proof.
  intros H.
  destruct (findPharmacies_withPlaces up raw la lo m places H)
    as [(_ & feats & Hf & ->) | (_ & elems & He & ->)].
  - split.
    + left. exists feats. split; [exact Hf |].
      rewrite map_map. now apply map_ext.
    + apply List.Forall_forall. intros p Hp.
      apply in_map_iff in Hp as (f & <- & _). cbn [name fromGeoapify].
      now apply default_name_nonempty.
  - split.
    + right. exists elems. split; [exact He |].
      rewrite map_map. now apply map_ext.
    + apply List.Forall_forall. intros p Hp.
      apply in_map_iff in Hp as (f & <- & _). cbn [name fromOverpass].
      now apply default_name_nonempty.
Qed.

(** X14. From an Overpass element, what is missing is reported as absent and
    never as an empty or a default value: the address is absent exactly when
    the element has none of its four address tags and is never the empty
    text, and the distance is absent whenever a coordinate, the element's
    own or else its centre's, is missing or is 0. *)
Theorem fromOverpass_missing_is_absent la lo e :
  (address (fromOverpass haversineKm la lo e) = None
   <-> filterBoolean [oe_housenumber e; oe_street e; oe_city e; oe_postcode e]
       = [])
  /\ address (fromOverpass haversineKm la lo e) <> Some ""
  /\ (truthyNum (nullish (oe_lat e) (oe_center_lat e)) = None
      \/ truthyNum (nullish (oe_lon e) (oe_center_lon e)) = None
      <-> distance_km (fromOverpass haversineKm la lo e) = None).
Proof.
  cbn [address distance_km fromOverpass].
  pose proof (filterBoolean_nonempty
                [oe_housenumber e; oe_street e; oe_city e; oe_postcode e])
    as Hne.
  destruct (filterBoolean _) as [| p rest] eqn:Ef.
  - repeat split; try discriminate; try reflexivity.
    + destruct (truthyNum (nullish (oe_lat e) (oe_center_lat e)));
        [| reflexivity].
      now destruct (truthyNum (nullish (oe_lon e) (oe_center_lon e)));
        intros [? | ?].
    + destruct (truthyNum (nullish (oe_lat e) (oe_center_lat e)));
        [| now left].
      destruct (truthyNum (nullish (oe_lon e) (oe_center_lon e)));
        [discriminate | now right].
  - repeat split; try discriminate.
    + intros [= Hj]. now apply (join_nonempty ", " (p :: rest)).
    + destruct (truthyNum (nullish (oe_lat e) (oe_center_lat e)));
        [| reflexivity].
      now destruct (truthyNum (nullish (oe_lon e) (oe_center_lon e)));
        intros [? | ?].
    + destruct (truthyNum (nullish (oe_lat e) (oe_center_lat e)));
        [| now left].
      destruct (truthyNum (nullish (oe_lon e) (oe_center_lon e)));
        [discriminate | now right].
Qed.

End FacilityMappingFacts.

Lemma findPharmacies_one_per_element_witness :
  ((exists feats,
      geoapify_features sampleRaw 42.5 (-71.25) 10000 = Return feats
      /\ map id (map (fromOverpass sampleDistance 42.5 (-71.25)) sampleElements)
         = map geoapifyId feats)
   \/ (exists elems,
         overpass_elements sampleRaw 42.5 (-71.25) 10000 = Return elems
         /\ map id (map (fromOverpass sampleDistance 42.5 (-71.25))
                      sampleElements)
            = map overpassId elems))
  /\ Forall (fun p => name p <> "")
       (map (fromOverpass sampleDistance 42.5 (-71.25)) sampleElements).
Proof.
  apply (findPharmacies_one_per_element sampleDistance sampleUpstream
           sampleRaw 42.5 (-71.25) 10000).
  reflexivity.
Defined.

(** ** The radius *)

(** X12. The radius handed to Facility Search is between 1000 and 50000
    meters when [radius_km] reads as a number, is NaN when it does not, and is
    10000 meters when [radius_km] is absent or empty. *)
Theorem radius_clamped_unless_nan (q : query) :
  (PrimFloat.is_nan (radiusKmOf q) = false ->
   PrimFloat.leb 1000 (radiusMeters (radiusKmOf q)) = true
   /\ PrimFloat.leb (radiusMeters (radiusKmOf q)) 50000 = true)
  /\ (PrimFloat.is_nan (radiusKmOf q) = true ->
      PrimFloat.is_nan (radiusMeters (radiusKmOf q)) = true)
  /\ (q_radius_km q = None \/ q_radius_km q = Some "" ->
      radiusMeters (radiusKmOf q) = 10000%float).
Proof.
  split; [apply radiusMeters_in_range |]. split.
  - intros Hn. rewrite <- F64Facts.mul_1000_is_nan in Hn.
    unfold radiusMeters, JS.Math_min. rewrite Hn, orb_true_r.
    reflexivity.
  - unfold radiusKmOf. intros [-> | ->]; reflexivity.
Qed.

(** ** The page's script *)

Lemma clamp_1_50 y :
  PrimFloat.is_nan y = false ->
  PrimFloat.is_nan (JS.Math_max 1 (JS.Math_min 50 y)) = false
  /\ PrimFloat.leb 1 (JS.Math_max 1 (JS.Math_min 50 y)) = true
  /\ PrimFloat.leb (JS.Math_max 1 (JS.Math_min 50 y)) 50 = true.
Proof.
  intros Hr.
  assert (Hmin : PrimFloat.is_nan (JS.Math_min 50 y) = false
                 /\ PrimFloat.leb (JS.Math_min 50 y) 50 = true).
  { unfold JS.Math_min. rewrite Hr. cbn [orb].
    change (PrimFloat.is_nan 50) with false. cbn [orb].
    change (PrimFloat.get_sign 50) with false.
    destruct (PrimFloat.ltb 50 y) eqn:E1; [split; reflexivity |].
    destruct (PrimFloat.ltb y 50) eqn:E2;
      (split; [exact Hr | now apply F64Facts.not_ltb_leb]). }
  destruct Hmin as [Hn Hle]. set (t := JS.Math_min 50 y) in *.
  unfold JS.Math_max. rewrite Hn.
  change (PrimFloat.is_nan 1) with false. cbn [orb].
  change (PrimFloat.get_sign 1) with false.
  destruct (PrimFloat.ltb 1 t) eqn:E1.
  - split; [exact Hn |]. split; [now apply F64Facts.ltb_leb | exact Hle].
  - destruct (PrimFloat.ltb t 1); repeat split; reflexivity.
Qed.

(** X15. Whatever the radius field holds, the radius the page sends is a
    number between 1 and 50, never NaN, and the server's clamp of that number
    is between 1000 and 50000 meters. *)
Theorem clientRadius_in_range (value : string) :
  PrimFloat.is_nan (clientRadius value) = false
  /\ PrimFloat.leb 1 (clientRadius value) = true
  /\ PrimFloat.leb (clientRadius value) 50 = true
  /\ PrimFloat.leb 1000 (radiusMeters (clientRadius value)) = true
  /\ PrimFloat.leb (radiusMeters (clientRadius value)) 50000 = true.
Proof.
  assert (H : PrimFloat.is_nan (clientRadius value) = false
              /\ PrimFloat.leb 1 (clientRadius value) = true
              /\ PrimFloat.leb (clientRadius value) 50 = true).
  { unfold clientRadius. apply clamp_1_50.
    destruct (truthyNumber (JS.Number value)) eqn:E; [| reflexivity].
    unfold truthyNumber in E. apply negb_true_iff, orb_false_iff in E.
    exact (proj1 E). }
  destruct H as [Hn [H1 H50]]. repeat (split; [assumption |]).
  now apply radiusMeters_in_range.
Qed.

Lemma list_ascii_of_string_app (a b : string) :
  list_ascii_of_string (a ++ b)
  = (list_ascii_of_string a ++ list_ascii_of_string b)%list.
Proof.
  induction a as [| c a IH]; simpl; [reflexivity | f_equal; exact IH].
Qed.

Lemma string_of_list_ascii_app (a b : list ascii) :
  string_of_list_ascii (a ++ b)
  = (string_of_list_ascii a ++ string_of_list_ascii b)%string.
Proof.
  induction a as [| c a IH]; [reflexivity |].
  cbn [app string_of_list_ascii]. now rewrite IH.
Qed.

Lemma isMarkup_special c : isHtmlSpecial c = false -> isMarkup c = false.
Proof.
  unfold isHtmlSpecial, isMarkup. cbv zeta.
  destruct (JS.charCode c =? 38), (JS.charCode c =? 60),
    (JS.charCode c =? 62), (JS.charCode c =? 34); cbn; congruence.
Qed.

Lemma replaceRun_clean run :
  forallb (fun c => negb (isMarkup c)) (replaceRun run) = true.
Proof.
  destruct run as [| c [| d run]]; [reflexivity | | reflexivity].
  unfold replaceRun, entityOf. cbv zeta.
  destruct (JS.charCode c =? 38); [reflexivity |].
  destruct (JS.charCode c =? 60); [reflexivity |].
  destruct (JS.charCode c =? 62); reflexivity.
Qed.

Lemma escapeFrom_clean l :
  forall run, forallb (fun c => negb (isMarkup c)) (escapeFrom run l) = true.
Proof.
  induction l as [| c l IH]; intros run; cbn [escapeFrom].
  - apply replaceRun_clean.
  - destruct (isHtmlSpecial c) eqn:E; [apply IH |].
    rewrite forallb_app, replaceRun_clean. cbn [forallb andb].
    now rewrite (isMarkup_special c E), IH.
Qed.

(** X16. Whatever the text, what [escapeHtml] returns holds no angle bracket
    and no double quote: a name, an address or a phone number placed in a card
    opens no element and closes no attribute. *)
Theorem escapeHtml_no_markup (str : string) :
  forallb (fun c => negb (isMarkup c)) (list_ascii_of_string (escapeHtml str))
  = true.
Proof.
  unfold escapeHtml. rewrite list_ascii_of_string_of_list_ascii.
  apply escapeFrom_clean.
Qed.

Lemma escapeFrom_isolated l :
  isolatedSpecials l = true ->
  escapeFrom [] l
  = flat_map (fun c => if isHtmlSpecial c
                       then list_ascii_of_string (entityOf c) else [c]) l
  /\ forall c,
       startsPlain l = true ->
       escapeFrom [c] l
       = (list_ascii_of_string (entityOf c)
          ++ flat_map (fun c => if isHtmlSpecial c
                                then list_ascii_of_string (entityOf c)
                                else [c]) l)%list.
Proof.
  induction l as [| a l IH]; intros Hi.
  - split; [reflexivity |]. intros c _. cbn. now rewrite app_nil_r.
  - assert (Hl : isolatedSpecials l = true).
    { cbn [isolatedSpecials] in Hi. destruct l; [reflexivity |].
      now apply andb_prop in Hi. }
    destruct (IH Hl) as [IH1 IH2]. split.
    + cbn [escapeFrom flat_map]. destruct (isHtmlSpecial a) eqn:E.
      * cbn [app]. apply IH2. cbn [isolatedSpecials] in Hi.
        destruct l as [| d l]; [reflexivity |]. cbn [startsPlain].
        apply andb_prop in Hi as [Hi _]. now rewrite E in Hi.
      * cbn [replaceRun app]. now rewrite IH1.
    + intros c Hs. cbn [startsPlain] in Hs. apply negb_true_iff in Hs.
      cbn [escapeFrom flat_map]. rewrite Hs. cbn [replaceRun].
      now rewrite IH1.
Qed.

(** X17. In a text where no two of the characters [&], [<], [>] and the
    double quote stand next to each other, [escapeHtml] replaces each of them
    by its entity and keeps every other character. *)
Theorem escapeHtml_isolated_specials (str : string) :
  isolatedSpecials (list_ascii_of_string str) = true ->
  escapeHtml str = escapeEach str.
Proof.
  intros H. unfold escapeHtml, escapeEach.
  now rewrite (proj1 (escapeFrom_isolated _ H)).
Qed.

Lemma escapeHtml_isolated_specials_witness :
  escapeHtml "Tom & Jerry <b>" = escapeEach "Tom & Jerry <b>"
  /\ escapeEach "Tom & Jerry <b>" = "Tom &amp; Jerry &lt;b&gt;".
Proof.
  split; [| reflexivity].
  apply escapeHtml_isolated_specials. reflexivity.
Defined.

Lemma escapeFrom_split l1 c l2 :
  isHtmlSpecial c = false ->
  forall run,
    escapeFrom run (l1 ++ c :: l2)
    = (escapeFrom run (l1 ++ [c]) ++ escapeFrom [] l2)%list.
Proof.
  intros Hc. induction l1 as [| a l1 IH]; intros run.
  - cbn [app escapeFrom]. rewrite Hc. cbn [replaceRun].
    now rewrite <- app_assoc.
  - cbn [app escapeFrom]. destruct (isHtmlSpecial a); [apply IH |].
    now rewrite IH, <- app_assoc.
Qed.

Lemma escapeFrom_after pre rest :
  endsPlain pre = true ->
  escapeFrom [] (pre ++ rest) = (escapeFrom [] pre ++ escapeFrom [] rest)%list.
Proof.
  unfold endsPlain. destruct (rev pre) as [| c r] eqn:E; intros Hc.
  - apply (f_equal (@rev ascii)) in E. rewrite rev_involutive in E.
    now subst pre.
  - apply (f_equal (@rev ascii)) in E. rewrite rev_involutive in E.
    cbn [rev] in E. subst pre. cbn [startsPlain] in Hc.
    apply negb_true_iff in Hc. rewrite <- app_assoc. cbn [app].
    now apply escapeFrom_split.
Qed.

Lemma escapeFrom_run run :
  forallb isHtmlSpecial run = true ->
  forall acc post,
    startsPlain post = true ->
    escapeFrom acc (run ++ post)
    = (replaceRun (acc ++ run) ++ escapeFrom [] post)%list.
Proof.
  induction run as [| c run IH]; intros Hr acc post Hp.
  - rewrite app_nil_r. cbn [app]. destruct post as [| d post].
    + cbn. now rewrite app_nil_r.
    + cbn [startsPlain] in Hp. apply negb_true_iff in Hp.
      cbn [escapeFrom]. now rewrite Hp.
  - cbn [forallb] in Hr. apply andb_prop in Hr as [Hc Hr].
    cbn [app escapeFrom]. rewrite Hc, (IH Hr _ _ Hp), <- app_assoc.
    reflexivity.
Qed.

(** X18. Two or more of the characters [&], [<], [>] and the double quote
    in a row are not escaped one by one: the whole run is replaced by the text
    [undefined], and the characters of the run are lost. *)
Theorem escapeHtml_run_becomes_undefined (pre run post : string) :
  endsPlain (list_ascii_of_string pre) = true ->
  forallb isHtmlSpecial (list_ascii_of_string run) = true ->
  (2 <= String.length run)%nat ->
  startsPlain (list_ascii_of_string post) = true ->
  escapeHtml (pre ++ run ++ post)
  = (escapeHtml pre ++ "undefined" ++ escapeHtml post)%string.
Proof.
  intros Hpre Hrun Hlen Hpost. unfold escapeHtml.
  rewrite !list_ascii_of_string_app, (escapeFrom_after _ _ Hpre),
    (escapeFrom_run _ Hrun [] _ Hpost), !string_of_list_ascii_app.
  cbn [app]. destruct run as [| c [| d run]]; cbn in Hlen; try lia.
  reflexivity.
Qed.

Lemma escapeHtml_run_becomes_undefined_witness :
  escapeHtml ("x " ++ "&&" ++ " y")
  = (escapeHtml "x " ++ "undefined" ++ escapeHtml " y")%string.
Proof.
  apply escapeHtml_run_becomes_undefined;
    [reflexivity | reflexivity | cbn; lia | reflexivity].
Defined.

Lemma badgeTable_ok : forallb badgeRow (zrange 40) = true.
Proof. vm_compute. reflexivity. Qed.

Lemma badgeCheck_ok a b : 0 <= a < 40 -> 0 <= b < 200 -> badgeCheck a b = true.
Proof.
  intros Ha Hb.
  pose proof (proj1 (forallb_forall badgeRow (zrange 40)) badgeTable_ok a
                (In_zrange 40 a Ha)) as Row.
  exact (proj1 (forallb_forall (badgeCheck a) (zrange 200)) Row b
           (In_zrange 200 b Hb)).
Qed.

Lemma toFixed2_simulatePrice (rxcui placeId : ident) :
  JS.toFixed2 (simulatePrice rxcui placeId)
  = Some (centsText (specCents rxcui placeId)).
Proof.
  unfold simulatePrice, specCents. rewrite !seedNum_polyHash.
  set (a := polyHash (String_ rxcui) mod 40).
  set (b := polyHash (String_ placeId) mod 200).
  assert (Ha : 0 <= a < 40) by (apply Z.mod_pos_bound; lia).
  assert (Hb : 0 <= b < 200) by (apply Z.mod_pos_bound; lia).
  pose proof (badgeCheck_ok a b Ha Hb) as Hc. unfold badgeCheck in Hc.
  fold (priceFrom a b).
  destruct (JS.toFixed2 (priceFrom a b)) as [s |]; [| discriminate].
  apply String.eqb_eq in Hc. now subst s.
Qed.

(** X19. The price badge of every pharmacy the server enriched is the
    decimal text of its price in cents, with two decimals: formatting the
    number again on the page changes nothing and never fails. *)
Theorem priceBadge_shows_the_cents (rx : string) (places : list facility) :
  Forall (fun i => priceBadge i
                   = Some (centsText (specCents (IdStr rx) (id (place i)))))
         (enrich rx places).
Proof.
  unfold enrich. apply List.Forall_forall. intros i Hi.
  apply in_map_iff in Hi as [p [<- _]]. unfold priceBadge. cbn.
  apply toFixed2_simulatePrice.
Qed.

Lemma or_default_nonempty (v : option string) (d : string) :
  d <> "" -> JS.or_default v d <> "".
Proof.
  intros Hd. unfold JS.or_default. destruct v as [s |]; [| exact Hd].
  destruct s; cbn; [exact Hd | discriminate].
Qed.

(** X20. The error bar never shows an empty message for a failed request:
    a body without error text gives the fixed text, and suggestions, at most
    five of them, are added to the server's message. *)
Theorem failedMessage_not_empty (b : body) :
  String.eqb (failedMessage b) "" = false
  /\ forall e s sg,
       b = InvalidMedicineBody e (s :: sg) ->
       failedMessage b
       = (e ++ ". Did you mean: " ++ join ", " (firstn 5 (s :: sg)) ++ "?")%string
         /\ (length (firstn 5 (s :: sg)) <= 5)%nat.
Proof.
  split.
  - apply String.eqb_neq. destruct b as [e | e [| s sg] | d | r];
      cbn [failedMessage]; try (apply or_default_nonempty; discriminate).
    + destruct e; discriminate.
    + discriminate.
  - intros e s sg ->. split; [reflexivity |]. apply firstn_le_length.
Qed.
